(** * MikuMikuWorld: the editing core of the chart editor

    A shallow embedding of the parts of [ScoreEditor.cpp] and
    [Audio/AudioManager.cpp] that decide the properties of the editor's
    specification: tick snapping, hold normalisation on release, score
    loading, the up-to-date flag, undo and redo, the per-frame sound-effect
    scheduler and seeking in the music track.

    Conventions.
    - A C++ [int] is a [Z]; [/] and [%] on ints are [Z.quot] and [Z.rem]
      (truncation towards zero) and are undefined for a zero divisor, which
      the embedding makes explicit with [option].
    - A C++ [float] holding a time in seconds is a rational ([Q]); the code
      only adds, subtracts and compares such times.
    - [std::unordered_map] is a [gmap]; where the code iterates over one, the
      iteration order is an explicit list, since it is unspecified.
    - Mutable members of [ScoreEditor] and [AudioManager] are record fields
      and the member functions are state transformers. *)

From Stdlib Require Import ZArith QArith Qround Lia Lqa Ascii.
From stdpp Require Import base option list gmap strings pretty fin_maps sorting.

Local Open Scope Z_scope.

(** ** C++ integer division *)

Module CInt.

(** [a / b] on ints: undefined for [b = 0]. *)
Definition div (a b : Z) : option Z :=
  if decide (b = 0) then None else Some (Z.quot a b).

(** [a % b] on ints: undefined for [b = 0]. *)
Definition rem (a b : Z) : option Z :=
  if decide (b = 0) then None else Some (Z.rem a b).

Global Arguments div : simpl never.
Global Arguments rem : simpl never.

End CInt.

(** ** Constants ([Constants.h]) *)

Module Constants.

(** Modelled from the spec: the constant [TICKS_PER_BEAT] is defined in
    [Constants.h], which is not embedded here; the specification fixes the
    resolution at 480 ticks per beat. *)
Definition TICKS_PER_BEAT : Z := 480.

End Constants.

(** ** The chart ([Score.h])

    [Score.h] is not embedded as such; the types below follow the
    data model of the specification and the members that [ScoreEditor.cpp]
    reads and writes ([note.tick], [note.lane], [hold.start.ID],
    [hold.steps[i].ID], [hold.end], [score.notes], [score.holdNotes],
    [score.tempoChanges], [score.metadata]). *)

Module Score.

Inductive NoteType := Tap | Hold | HoldMid | HoldEnd.
Inductive FlickType := FlickNone | FlickUp | FlickLeft | FlickRight.
Inductive EaseType := EaseNone | EaseIn | EaseOut.
Inductive HoldStepType := Visible | Invisible | Ignored.

Global Instance NoteType_eq_dec : EqDecision NoteType.
Proof. solve_decision. Defined.

Record Note := mkNote {
  noteType : NoteType;
  ID : Z;
  tick : Z;
  lane : Z;
  width : Z;
  critical : bool;
  flick : FlickType;
}.

(** Assignments to [note.tick] and [note.lane]. *)
Definition setTickLane (t l : Z) (n : Note) : Note :=
  {| noteType := noteType n; ID := ID n; tick := t; lane := l;
     width := width n; critical := critical n; flick := flick n |}.

Record HoldStep := mkHoldStep {
  stepID : Z;
  stepType : HoldStepType;
  ease : EaseType;
}.

Record HoldNote := mkHoldNote {
  start : HoldStep;
  steps : list HoldStep;
  end_ : Z;
}.

Definition setSteps (l : list HoldStep) (h : HoldNote) : HoldNote :=
  {| start := start h; steps := l; end_ := end_ h |}.

Record Tempo := mkTempo { tempoTick : Z; bpm : Q }.

Record TimeSignature := mkTimeSignature { numerator : Z; denominator : Z }.

Record ScoreMetadata := mkScoreMetadata {
  title : string;
  artist : string;
  author : string;
  musicFile : string;
  jacketFile : string;
  musicOffset : Q;
}.

Record Score := mkScore {
  metadata : ScoreMetadata;
  notes : gmap Z Note;
  holdNotes : gmap Z HoldNote;
  tempoChanges : list Tempo;
  timeSignatures : gmap Z TimeSignature;
}.

Definition setNotes (ns : gmap Z Note) (sc : Score) : Score :=
  {| metadata := metadata sc; notes := ns; holdNotes := holdNotes sc;
     tempoChanges := tempoChanges sc; timeSignatures := timeSignatures sc |}.

Definition setHoldNotes (hs : gmap Z HoldNote) (sc : Score) : Score :=
  {| metadata := metadata sc; notes := notes sc; holdNotes := hs;
     tempoChanges := tempoChanges sc; timeSignatures := timeSignatures sc |}.

Definition setMetadata (md : ScoreMetadata) (sc : Score) : Score :=
  {| metadata := md; notes := notes sc; holdNotes := holdNotes sc;
     tempoChanges := tempoChanges sc; timeSignatures := timeSignatures sc |}.

(** [Score{}]: the empty chart. *)
Definition empty : Score :=
  {| metadata := mkScoreMetadata "" "" "" "" "" 0%Q; notes := ∅; holdNotes := ∅;
     tempoChanges := []; timeSignatures := ∅ |}.

(** [std::swap(a.tick, b.tick); std::swap(a.lane, b.lane)] for the notes
    stored under [a] and [b], which the source holds by reference into
    [score.notes]: the two writes go to the map, so [a = b] is a no-op. *)
Definition swapTickLane (a b : Z) (ns : gmap Z Note) : gmap Z Note :=
  match ns !! a, ns !! b with
  | Some na, Some nb =>
      <[b := setTickLane (tick na) (lane na) nb]>
        (<[a := setTickLane (tick nb) (lane nb) na]> ns)
  | _, _ => ns
  end.

(** The tick of the note a step refers to, [score.notes.at(step.ID).tick];
    [None] stands for the [std::out_of_range] that [at] throws. *)
Definition stepTick (ns : gmap Z Note) (s : HoldStep) : option Z :=
  tick <$> ns !! stepID s.

Fixpoint insertStep (x : Z * HoldStep) (l : list (Z * HoldStep)) :
    list (Z * HoldStep) :=
  match l with
  | [] => [x]
  | y :: l' => if decide (x.1 ≤ y.1) then x :: y :: l' else y :: insertStep x l'
  end.

(** Modelled from the spec: [sortHoldSteps] is defined outside
    [ScoreEditor.cpp]; the specification says that it re-sorts the hold's
    steps by tick. It is taken to be a stable sort on the tick of the step's
    note. *)
Definition sortHoldSteps (ns : gmap Z Note) (l : list HoldStep) :
    option (list HoldStep) :=
  ts ← mapM (stepTick ns) l;
  Some (snd <$> foldr insertStep [] (zip ts l)).

(** The IDs of the steps of a hold, in the order of [hold.steps]. *)
Definition stepIDs (sc : Score) (id : Z) : option (list Z) :=
  hold ← holdNotes sc !! id; Some (stepID <$> steps hold).

(** The ticks of a hold in order: start, steps, end. *)
Definition holdTicks (sc : Score) (id : Z) : option (list Z) :=
  hold ← holdNotes sc !! id;
  s ← notes sc !! id;
  e ← notes sc !! end_ hold;
  ms ← mapM (stepTick (notes sc)) (steps hold);
  Some (tick s :: ms ++ [tick e]).

Fixpoint ascending (l : list Z) : bool :=
  match l with
  | x :: (y :: _) as l' => bool_decide (x ≤ y) && ascending l'
  | _ => true
  end.

(** The hold invariant of the data model:
    [start.tick ≤ steps[0].tick ≤ … ≤ end.tick]. *)
Definition holdOrdered (sc : Score) (id : Z) : bool :=
  match holdTicks sc id with
  | Some ts => ascending ts
  | None => false
  end.

(** Every step lies between the start and the end of its hold. *)
Definition stepsWithin (sc : Score) (id : Z) : bool :=
  match holdTicks sc id with
  | Some (s :: ts) =>
      forallb (λ t, bool_decide (s ≤ t) && bool_decide (t ≤ List.last ts s)) ts
  | _ => false
  end.

End Score.

(** ** The undo history ([HistoryManager.h]) *)

Module History.

Record Entry := mkEntry {
  description : string;
  prev : Score.Score;
  curr : Score.Score;
}.

(** Modelled from the spec: [HistoryManager] is defined outside
    [ScoreEditor.cpp]. The specification describes a linear history of whole-chart
    snapshots: [push(description, previous, current)], [undo] returning the
    previous snapshot of the latest entry, [redo] returning the current
    snapshot of the entry undone last, and a push dropping every redo
    entry. *)
Record HistoryManager := mkHistory {
  undoStack : list Entry;
  redoStack : list Entry;
}.

Definition clear (h : HistoryManager) : HistoryManager := mkHistory [] [].

Definition hasUndo (h : HistoryManager) : bool :=
  match undoStack h with [] => false | _ => true end.

Definition hasRedo (h : HistoryManager) : bool :=
  match redoStack h with [] => false | _ => true end.

Definition pushHistory (d : string) (p c : Score.Score) (h : HistoryManager) :
    HistoryManager :=
  mkHistory (mkEntry d p c :: undoStack h) [].

(** [None]: nothing to undo. *)
Definition undo (h : HistoryManager) : option (Score.Score * HistoryManager) :=
  match undoStack h with
  | [] => None
  | x :: us => Some (prev x, mkHistory us (x :: redoStack h))
  end.

(** [None]: nothing to redo. *)
Definition redo (h : HistoryManager) : option (Score.Score * HistoryManager) :=
  match redoStack h with
  | [] => None
  | x :: rs => Some (curr x, mkHistory (x :: undoStack h) rs)
  end.

End History.

(** ** Times in seconds

    The comparisons the code makes on [float] times. *)

Module Time.

Definition geb (x y : Q) : bool := Qle_bool y x.
Definition leb (x y : Q) : bool := Qle_bool x y.
Definition ltb (x y : Q) : bool := negb (Qle_bool y x).
Definition gtb (x y : Q) : bool := negb (Qle_bool x y).
Definition eqb (x y : Q) : bool := Qeq_bool x y.
Definition max (x y : Q) : Q := if Qle_bool x y then y else x.

End Time.

(** ** What the editor takes from the rest of the program

    Constants of [Constants.h] and [ScoreEditor.h], the file-name helpers of
    [File], the importers, the tempo integration of [Tempo.h] and
    [getNoteSE] are defined outside [ScoreEditor.cpp]; the editor is modelled
    over any choice of them. *)

Inductive LoadResult :=
  | Loaded (sc : Score.Score) (nextID' : Z)
  | Threw (what : string) (nextID' : Z).

Record Externals := mkExternals {
  SUS_EXTENSION : string;
  MMWS_EXTENSION : string;
  SE_CONNECT : string;
  SE_CRITICAL_CONNECT : string;
  windowUntitled : string;
  audioLookAhead : Q;
  audioOffsetCorrection : Q;
  (** conversion of a [float] to [ma_uint64] *)
  toFrame : Q → N;
  (** [accumulateDuration(tick, TICKS_PER_BEAT, tempoChanges)] *)
  accumulateDuration : Z → Z → list Score.Tempo → Q;
  getNoteSE : Score.Note → Score.Score → string;
  getFileExtension : string → string;
  getFilenameWithoutExtension : string → string;
  (** [SUSIO::importSUS] and [deserializeScore], run with the ID allocator at
      the given value: the chart read and the allocator afterwards, or the
      [std::runtime_error] thrown and the allocator at that point. *)
  importSUS : string → Z → LoadResult;
  deserializeScore : string → Z → LoadResult;
  (** [ma_sound_init_from_file_w]: the length in frames of the decoded track,
      [None] when the file cannot be opened. *)
  loadTrack : string → option N;
}.

(** ** The audio transport ([Audio/AudioManager.cpp]) *)

Module Audio.

(** What reaches the sound effects: [Sound::playSound(start, end)] on the
    effect named [se], and [Sound::stopAll()]. [key] is not in the source:
    it records the entry of the scheduler's table under which a one-shot
    effect was requested ([None] for the sustained hold effect), so that
    firings can be counted per note. *)
Inductive Event :=
  | Play (key : option string) (se : string) (start end_ : Q)
  | StopAll (se : string).

Record AudioManager := mkAudio {
  musicInitialized : bool;
  bgmOffset : Q;
  (** [engine.sampleRate] *)
  sampleRate : Z;
  (** engine time, [ma_engine_get_time] *)
  engineTime : Q;
  (** the track: its length in frames when [ma_sound_get_length_in_pcm_frames]
      succeeds, the frame last sought, the cursor in seconds, [bgm.atEnd],
      whether it is started and its scheduled start time in milliseconds *)
  bgmLength : option N;
  bgmSeekFrame : N;
  bgmCursor : Q;
  bgmAtEnd : bool;
  bgmStarted : bool;
  bgmStartTime : Q;
  (** the names of the loaded effects, the keys of [sounds] *)
  sounds : gset string;
  (** requests to the effects, latest first *)
  events : list Event;
}.

Definition setBgmAtEnd (b : bool) (a : AudioManager) : AudioManager :=
  {| musicInitialized := musicInitialized a; bgmOffset := bgmOffset a;
     sampleRate := sampleRate a; engineTime := engineTime a;
     bgmLength := bgmLength a; bgmSeekFrame := bgmSeekFrame a;
     bgmCursor := bgmCursor a; bgmAtEnd := b; bgmStarted := bgmStarted a;
     bgmStartTime := bgmStartTime a; sounds := sounds a; events := events a |}.

Definition setBgmSeekFrame (f : N) (a : AudioManager) : AudioManager :=
  {| musicInitialized := musicInitialized a; bgmOffset := bgmOffset a;
     sampleRate := sampleRate a; engineTime := engineTime a;
     bgmLength := bgmLength a; bgmSeekFrame := f;
     bgmCursor := bgmCursor a; bgmAtEnd := bgmAtEnd a; bgmStarted := bgmStarted a;
     bgmStartTime := bgmStartTime a; sounds := sounds a; events := events a |}.

Definition setBgmStarted (b : bool) (a : AudioManager) : AudioManager :=
  {| musicInitialized := musicInitialized a; bgmOffset := bgmOffset a;
     sampleRate := sampleRate a; engineTime := engineTime a;
     bgmLength := bgmLength a; bgmSeekFrame := bgmSeekFrame a;
     bgmCursor := bgmCursor a; bgmAtEnd := bgmAtEnd a; bgmStarted := b;
     bgmStartTime := bgmStartTime a; sounds := sounds a; events := events a |}.

Definition setBgmStartTime (t : Q) (a : AudioManager) : AudioManager :=
  {| musicInitialized := musicInitialized a; bgmOffset := bgmOffset a;
     sampleRate := sampleRate a; engineTime := engineTime a;
     bgmLength := bgmLength a; bgmSeekFrame := bgmSeekFrame a;
     bgmCursor := bgmCursor a; bgmAtEnd := bgmAtEnd a; bgmStarted := bgmStarted a;
     bgmStartTime := t; sounds := sounds a; events := events a |}.

Definition setBgmOffsetField (o : Q) (a : AudioManager) : AudioManager :=
  {| musicInitialized := musicInitialized a; bgmOffset := o;
     sampleRate := sampleRate a; engineTime := engineTime a;
     bgmLength := bgmLength a; bgmSeekFrame := bgmSeekFrame a;
     bgmCursor := bgmCursor a; bgmAtEnd := bgmAtEnd a; bgmStarted := bgmStarted a;
     bgmStartTime := bgmStartTime a; sounds := sounds a; events := events a |}.

Definition setEngineTime (t : Q) (a : AudioManager) : AudioManager :=
  {| musicInitialized := musicInitialized a; bgmOffset := bgmOffset a;
     sampleRate := sampleRate a; engineTime := t;
     bgmLength := bgmLength a; bgmSeekFrame := bgmSeekFrame a;
     bgmCursor := bgmCursor a; bgmAtEnd := bgmAtEnd a; bgmStarted := bgmStarted a;
     bgmStartTime := bgmStartTime a; sounds := sounds a; events := events a |}.

Definition setEvents (l : list Event) (a : AudioManager) : AudioManager :=
  {| musicInitialized := musicInitialized a; bgmOffset := bgmOffset a;
     sampleRate := sampleRate a; engineTime := engineTime a;
     bgmLength := bgmLength a; bgmSeekFrame := bgmSeekFrame a;
     bgmCursor := bgmCursor a; bgmAtEnd := bgmAtEnd a; bgmStarted := bgmStarted a;
     bgmStartTime := bgmStartTime a; sounds := sounds a; events := l |}.

(** The track as [ma_sound_init_from_file_w] or [ma_sound_uninit] leaves it. *)
Definition setTrack (init : bool) (len : option N) (a : AudioManager) :
    AudioManager :=
  {| musicInitialized := init; bgmOffset := bgmOffset a;
     sampleRate := sampleRate a; engineTime := engineTime a;
     bgmLength := len; bgmSeekFrame := 0%N;
     bgmCursor := 0%Q; bgmAtEnd := false; bgmStarted := false;
     bgmStartTime := 0%Q; sounds := sounds a; events := events a |}.

(** [AudioManager::seekBGM] *)
Definition seekBGM (X : Externals) (time : Q) (a : AudioManager) : AudioManager :=
  let seekFrame := toFrame X ((time - bgmOffset a) * inject_Z (sampleRate a))%Q in
  let a := setBgmSeekFrame seekFrame a in
  match bgmLength a with
  | None => a
  | Some length =>
      if decide (length < seekFrame)%N then setBgmAtEnd true a
      else if bgmAtEnd a && bool_decide (seekFrame < length)%N
           then setBgmAtEnd false a
           else a
  end.

(** [AudioManager::playBGM] *)
Definition playBGM (currTime : Q) (a : AudioManager) : AudioManager :=
  if negb (musicInitialized a) then a else
  let time := (bgmOffset a - currTime)%Q in
  match bgmLength a with
  | None => a
  | Some length =>
      if Time.gtb (time * inject_Z (sampleRate a) * -1)%Q (inject_Z (Z.of_N length))
      then a
      else setBgmStarted true (setBgmStartTime (Time.max 0 (time * 1000))%Q a)
  end.

(** [AudioManager::stopBGM] *)
Definition stopBGM (a : AudioManager) : AudioManager :=
  setBgmSeekFrame 0%N (setBgmStarted false a).

(** [AudioManager::disposeBGM] *)
Definition disposeBGM (a : AudioManager) : AudioManager :=
  if musicInitialized a then setTrack false None a else a.

(** [AudioManager::changeBGM] *)
Definition changeBGM (X : Externals) (filename : string) (a : AudioManager) :
    AudioManager :=
  let a := disposeBGM a in
  match loadTrack X filename with
  | None => setTrack false None a
  | Some len => setTrack true (Some len) a
  end.

(** [AudioManager::getEngineAbsTime] *)
Definition getEngineAbsTime (a : AudioManager) : Q :=
  (engineTime a / inject_Z (sampleRate a) / 1000)%Q.

(** [AudioManager::setBGMOffset] *)
Definition setBGMOffset (X : Externals) (time msec : Q) (a : AudioManager) :
    AudioManager :=
  let a := setBgmOffsetField (msec / 1000)%Q a in
  let pos := (time - bgmOffset a)%Q in
  let a := setBgmSeekFrame (toFrame X (pos * inject_Z (sampleRate a))%Q) a in
  let start := (getEngineAbsTime a + bgmOffset a - time)%Q in
  setBgmStartTime (Time.max 0 (start * 1000))%Q a.

(** [AudioManager::reSync] *)
Definition reSync (a : AudioManager) : AudioManager := setEngineTime 0%Q a.

(** [AudioManager::getAudioPosition] *)
Definition getAudioPosition (a : AudioManager) : Q := bgmCursor a.

(** [AudioManager::isMusicAtEnd] *)
Definition isMusicAtEnd (a : AudioManager) : bool := bgmAtEnd a.

(** [AudioManager::playSound]; [key] as in [Event]. *)
Definition playSound (key : option string) (se : string) (start end_ : Q)
    (a : AudioManager) : AudioManager :=
  if decide (se ∈ sounds a) then setEvents (Play key se start end_ :: events a) a
  else a.

(** [AudioManager::stopSounds]; [loadSE] creates the two hold effects at
    start-up, so that [sounds[SE_CONNECT]] and [sounds[SE_CRITICAL_CONNECT]]
    are there. *)
Definition stopSounds (X : Externals) (all : bool) (a : AudioManager) :
    AudioManager :=
  if all then setEvents ((StopAll <$> elements (sounds a)) ++ events a) a
  else setEvents (StopAll (SE_CRITICAL_CONNECT X) :: StopAll (SE_CONNECT X)
                    :: events a) a.

End Audio.

(** ** The editor ([ScoreEditor.cpp]) *)

Module Editor.

Import Score.

(** [EditorScoreData], the [workingData] member; the jacket is kept by
    its file name. *)
Record EditorScoreData := mkData {
  wTitle : string;
  wDesigner : string;
  wArtist : string;
  wMusicFilename : string;
  wMusicOffset : Q;
  wJacket : string;
  filename : string;
}.

Definition setFilename (f : string) (d : EditorScoreData) : EditorScoreData :=
  {| wTitle := wTitle d; wDesigner := wDesigner d; wArtist := wArtist d;
     wMusicFilename := wMusicFilename d; wMusicOffset := wMusicOffset d;
     wJacket := wJacket d; filename := f |}.

Definition setMusicFilename (f : string) (d : EditorScoreData) : EditorScoreData :=
  {| wTitle := wTitle d; wDesigner := wDesigner d; wArtist := wArtist d;
     wMusicFilename := f; wMusicOffset := wMusicOffset d;
     wJacket := wJacket d; filename := filename d |}.

(** The members of [ScoreEditor] that the functions below read or write,
    with the process-wide state they touch. Rendering, the canvas, the
    statistics and the dummy notes are left out. *)
Record ScoreEditor := mkEditor {
  score : Score.Score;
  prevUpdateScore : Score.Score;
  (** the selected note IDs, [selection] *)
  selection : gset Z;
  history : History.HistoryManager;
  workingData : EditorScoreData;
  hasEdit : bool;
  uptoDate : bool;
  isHoldingNote : bool;
  skipUpdateAfterSortingSteps : bool;
  playing : bool;
  time : Q;
  playStartTime : Q;
  songPos : Q;
  songPosLastFrame : Q;
  tickSEMap : gmap string Z;
  division : Z;
  currentTick : Z;
  audio : Audio.AudioManager;
  (** the global ID allocator, [nextID] *)
  nextID : Z;
  (** the title last given to [UI::setWindowTitle] *)
  windowTitle : string;
  (** the calls of [serializeScore], latest first *)
  written : list (string * Score.Score);
}.

Definition withScore (v : Score.Score) (e : ScoreEditor) : ScoreEditor :=
  {| score := v; prevUpdateScore := prevUpdateScore e;
     selection := selection e; history := history e;
     workingData := workingData e; hasEdit := hasEdit e;
     uptoDate := uptoDate e; isHoldingNote := isHoldingNote e;
     skipUpdateAfterSortingSteps := skipUpdateAfterSortingSteps e;
     playing := playing e; time := time e; playStartTime := playStartTime e;
     songPos := songPos e; songPosLastFrame := songPosLastFrame e;
     tickSEMap := tickSEMap e; division := division e;
     currentTick := currentTick e; audio := audio e; nextID := nextID e;
     windowTitle := windowTitle e; written := written e |}.

Definition withPrevUpdateScore (v : Score.Score) (e : ScoreEditor) : ScoreEditor :=
  {| score := score e; prevUpdateScore := v; selection := selection e;
     history := history e; workingData := workingData e;
     hasEdit := hasEdit e; uptoDate := uptoDate e;
     isHoldingNote := isHoldingNote e;
     skipUpdateAfterSortingSteps := skipUpdateAfterSortingSteps e;
     playing := playing e; time := time e; playStartTime := playStartTime e;
     songPos := songPos e; songPosLastFrame := songPosLastFrame e;
     tickSEMap := tickSEMap e; division := division e;
     currentTick := currentTick e; audio := audio e; nextID := nextID e;
     windowTitle := windowTitle e; written := written e |}.

Definition withSelection (v : gset Z) (e : ScoreEditor) : ScoreEditor :=
  {| score := score e; prevUpdateScore := prevUpdateScore e; selection := v;
     history := history e; workingData := workingData e;
     hasEdit := hasEdit e; uptoDate := uptoDate e;
     isHoldingNote := isHoldingNote e;
     skipUpdateAfterSortingSteps := skipUpdateAfterSortingSteps e;
     playing := playing e; time := time e; playStartTime := playStartTime e;
     songPos := songPos e; songPosLastFrame := songPosLastFrame e;
     tickSEMap := tickSEMap e; division := division e;
     currentTick := currentTick e; audio := audio e; nextID := nextID e;
     windowTitle := windowTitle e; written := written e |}.

Definition withHistory (v : History.HistoryManager) (e : ScoreEditor) : ScoreEditor :=
  {| score := score e; prevUpdateScore := prevUpdateScore e;
     selection := selection e; history := v; workingData := workingData e;
     hasEdit := hasEdit e; uptoDate := uptoDate e;
     isHoldingNote := isHoldingNote e;
     skipUpdateAfterSortingSteps := skipUpdateAfterSortingSteps e;
     playing := playing e; time := time e; playStartTime := playStartTime e;
     songPos := songPos e; songPosLastFrame := songPosLastFrame e;
     tickSEMap := tickSEMap e; division := division e;
     currentTick := currentTick e; audio := audio e; nextID := nextID e;
     windowTitle := windowTitle e; written := written e |}.

Definition withWorkingData (v : EditorScoreData) (e : ScoreEditor) : ScoreEditor :=
  {| score := score e; prevUpdateScore := prevUpdateScore e;
     selection := selection e; history := history e; workingData := v;
     hasEdit := hasEdit e; uptoDate := uptoDate e;
     isHoldingNote := isHoldingNote e;
     skipUpdateAfterSortingSteps := skipUpdateAfterSortingSteps e;
     playing := playing e; time := time e; playStartTime := playStartTime e;
     songPos := songPos e; songPosLastFrame := songPosLastFrame e;
     tickSEMap := tickSEMap e; division := division e;
     currentTick := currentTick e; audio := audio e; nextID := nextID e;
     windowTitle := windowTitle e; written := written e |}.

Definition withHasEdit (v : bool) (e : ScoreEditor) : ScoreEditor :=
  {| score := score e; prevUpdateScore := prevUpdateScore e;
     selection := selection e; history := history e;
     workingData := workingData e; hasEdit := v; uptoDate := uptoDate e;
     isHoldingNote := isHoldingNote e;
     skipUpdateAfterSortingSteps := skipUpdateAfterSortingSteps e;
     playing := playing e; time := time e; playStartTime := playStartTime e;
     songPos := songPos e; songPosLastFrame := songPosLastFrame e;
     tickSEMap := tickSEMap e; division := division e;
     currentTick := currentTick e; audio := audio e; nextID := nextID e;
     windowTitle := windowTitle e; written := written e |}.

Definition withUptoDate (v : bool) (e : ScoreEditor) : ScoreEditor :=
  {| score := score e; prevUpdateScore := prevUpdateScore e;
     selection := selection e; history := history e;
     workingData := workingData e; hasEdit := hasEdit e; uptoDate := v;
     isHoldingNote := isHoldingNote e;
     skipUpdateAfterSortingSteps := skipUpdateAfterSortingSteps e;
     playing := playing e; time := time e; playStartTime := playStartTime e;
     songPos := songPos e; songPosLastFrame := songPosLastFrame e;
     tickSEMap := tickSEMap e; division := division e;
     currentTick := currentTick e; audio := audio e; nextID := nextID e;
     windowTitle := windowTitle e; written := written e |}.

Definition withIsHoldingNote (v : bool) (e : ScoreEditor) : ScoreEditor :=
  {| score := score e; prevUpdateScore := prevUpdateScore e;
     selection := selection e; history := history e;
     workingData := workingData e; hasEdit := hasEdit e;
     uptoDate := uptoDate e; isHoldingNote := v;
     skipUpdateAfterSortingSteps := skipUpdateAfterSortingSteps e;
     playing := playing e; time := time e; playStartTime := playStartTime e;
     songPos := songPos e; songPosLastFrame := songPosLastFrame e;
     tickSEMap := tickSEMap e; division := division e;
     currentTick := currentTick e; audio := audio e; nextID := nextID e;
     windowTitle := windowTitle e; written := written e |}.

Definition withSkipUpdate (v : bool) (e : ScoreEditor) : ScoreEditor :=
  {| score := score e; prevUpdateScore := prevUpdateScore e;
     selection := selection e; history := history e;
     workingData := workingData e; hasEdit := hasEdit e;
     uptoDate := uptoDate e; isHoldingNote := isHoldingNote e;
     skipUpdateAfterSortingSteps := v; playing := playing e; time := time e;
     playStartTime := playStartTime e; songPos := songPos e;
     songPosLastFrame := songPosLastFrame e; tickSEMap := tickSEMap e;
     division := division e; currentTick := currentTick e; audio := audio e;
     nextID := nextID e; windowTitle := windowTitle e;
     written := written e |}.

Definition withPlaying (v : bool) (e : ScoreEditor) : ScoreEditor :=
  {| score := score e; prevUpdateScore := prevUpdateScore e;
     selection := selection e; history := history e;
     workingData := workingData e; hasEdit := hasEdit e;
     uptoDate := uptoDate e; isHoldingNote := isHoldingNote e;
     skipUpdateAfterSortingSteps := skipUpdateAfterSortingSteps e;
     playing := v; time := time e; playStartTime := playStartTime e;
     songPos := songPos e; songPosLastFrame := songPosLastFrame e;
     tickSEMap := tickSEMap e; division := division e;
     currentTick := currentTick e; audio := audio e; nextID := nextID e;
     windowTitle := windowTitle e; written := written e |}.

Definition withTime (v : Q) (e : ScoreEditor) : ScoreEditor :=
  {| score := score e; prevUpdateScore := prevUpdateScore e;
     selection := selection e; history := history e;
     workingData := workingData e; hasEdit := hasEdit e;
     uptoDate := uptoDate e; isHoldingNote := isHoldingNote e;
     skipUpdateAfterSortingSteps := skipUpdateAfterSortingSteps e;
     playing := playing e; time := v; playStartTime := playStartTime e;
     songPos := songPos e; songPosLastFrame := songPosLastFrame e;
     tickSEMap := tickSEMap e; division := division e;
     currentTick := currentTick e; audio := audio e; nextID := nextID e;
     windowTitle := windowTitle e; written := written e |}.

Definition withPlayStartTime (v : Q) (e : ScoreEditor) : ScoreEditor :=
  {| score := score e; prevUpdateScore := prevUpdateScore e;
     selection := selection e; history := history e;
     workingData := workingData e; hasEdit := hasEdit e;
     uptoDate := uptoDate e; isHoldingNote := isHoldingNote e;
     skipUpdateAfterSortingSteps := skipUpdateAfterSortingSteps e;
     playing := playing e; time := time e; playStartTime := v;
     songPos := songPos e; songPosLastFrame := songPosLastFrame e;
     tickSEMap := tickSEMap e; division := division e;
     currentTick := currentTick e; audio := audio e; nextID := nextID e;
     windowTitle := windowTitle e; written := written e |}.

Definition withSongPos (v : Q) (e : ScoreEditor) : ScoreEditor :=
  {| score := score e; prevUpdateScore := prevUpdateScore e;
     selection := selection e; history := history e;
     workingData := workingData e; hasEdit := hasEdit e;
     uptoDate := uptoDate e; isHoldingNote := isHoldingNote e;
     skipUpdateAfterSortingSteps := skipUpdateAfterSortingSteps e;
     playing := playing e; time := time e; playStartTime := playStartTime e;
     songPos := v; songPosLastFrame := songPosLastFrame e;
     tickSEMap := tickSEMap e; division := division e;
     currentTick := currentTick e; audio := audio e; nextID := nextID e;
     windowTitle := windowTitle e; written := written e |}.

Definition withSongPosLastFrame (v : Q) (e : ScoreEditor) : ScoreEditor :=
  {| score := score e; prevUpdateScore := prevUpdateScore e;
     selection := selection e; history := history e;
     workingData := workingData e; hasEdit := hasEdit e;
     uptoDate := uptoDate e; isHoldingNote := isHoldingNote e;
     skipUpdateAfterSortingSteps := skipUpdateAfterSortingSteps e;
     playing := playing e; time := time e; playStartTime := playStartTime e;
     songPos := songPos e; songPosLastFrame := v; tickSEMap := tickSEMap e;
     division := division e; currentTick := currentTick e; audio := audio e;
     nextID := nextID e; windowTitle := windowTitle e;
     written := written e |}.

Definition withTickSEMap (v : gmap string Z) (e : ScoreEditor) : ScoreEditor :=
  {| score := score e; prevUpdateScore := prevUpdateScore e;
     selection := selection e; history := history e;
     workingData := workingData e; hasEdit := hasEdit e;
     uptoDate := uptoDate e; isHoldingNote := isHoldingNote e;
     skipUpdateAfterSortingSteps := skipUpdateAfterSortingSteps e;
     playing := playing e; time := time e; playStartTime := playStartTime e;
     songPos := songPos e; songPosLastFrame := songPosLastFrame e;
     tickSEMap := v; division := division e; currentTick := currentTick e;
     audio := audio e; nextID := nextID e; windowTitle := windowTitle e;
     written := written e |}.

Definition withDivision (v : Z) (e : ScoreEditor) : ScoreEditor :=
  {| score := score e; prevUpdateScore := prevUpdateScore e;
     selection := selection e; history := history e;
     workingData := workingData e; hasEdit := hasEdit e;
     uptoDate := uptoDate e; isHoldingNote := isHoldingNote e;
     skipUpdateAfterSortingSteps := skipUpdateAfterSortingSteps e;
     playing := playing e; time := time e; playStartTime := playStartTime e;
     songPos := songPos e; songPosLastFrame := songPosLastFrame e;
     tickSEMap := tickSEMap e; division := v; currentTick := currentTick e;
     audio := audio e; nextID := nextID e; windowTitle := windowTitle e;
     written := written e |}.

Definition withAudio (v : Audio.AudioManager) (e : ScoreEditor) : ScoreEditor :=
  {| score := score e; prevUpdateScore := prevUpdateScore e;
     selection := selection e; history := history e;
     workingData := workingData e; hasEdit := hasEdit e;
     uptoDate := uptoDate e; isHoldingNote := isHoldingNote e;
     skipUpdateAfterSortingSteps := skipUpdateAfterSortingSteps e;
     playing := playing e; time := time e; playStartTime := playStartTime e;
     songPos := songPos e; songPosLastFrame := songPosLastFrame e;
     tickSEMap := tickSEMap e; division := division e;
     currentTick := currentTick e; audio := v; nextID := nextID e;
     windowTitle := windowTitle e; written := written e |}.

Definition withNextID (v : Z) (e : ScoreEditor) : ScoreEditor :=
  {| score := score e; prevUpdateScore := prevUpdateScore e;
     selection := selection e; history := history e;
     workingData := workingData e; hasEdit := hasEdit e;
     uptoDate := uptoDate e; isHoldingNote := isHoldingNote e;
     skipUpdateAfterSortingSteps := skipUpdateAfterSortingSteps e;
     playing := playing e; time := time e; playStartTime := playStartTime e;
     songPos := songPos e; songPosLastFrame := songPosLastFrame e;
     tickSEMap := tickSEMap e; division := division e;
     currentTick := currentTick e; audio := audio e; nextID := v;
     windowTitle := windowTitle e; written := written e |}.

Definition withWindowTitle (v : string) (e : ScoreEditor) : ScoreEditor :=
  {| score := score e; prevUpdateScore := prevUpdateScore e;
     selection := selection e; history := history e;
     workingData := workingData e; hasEdit := hasEdit e;
     uptoDate := uptoDate e; isHoldingNote := isHoldingNote e;
     skipUpdateAfterSortingSteps := skipUpdateAfterSortingSteps e;
     playing := playing e; time := time e; playStartTime := playStartTime e;
     songPos := songPos e; songPosLastFrame := songPosLastFrame e;
     tickSEMap := tickSEMap e; division := division e;
     currentTick := currentTick e; audio := audio e; nextID := nextID e;
     windowTitle := v; written := written e |}.

Definition withWritten (v : list (string * Score.Score)) (e : ScoreEditor) : ScoreEditor :=
  {| score := score e; prevUpdateScore := prevUpdateScore e;
     selection := selection e; history := history e;
     workingData := workingData e; hasEdit := hasEdit e;
     uptoDate := uptoDate e; isHoldingNote := isHoldingNote e;
     skipUpdateAfterSortingSteps := skipUpdateAfterSortingSteps e;
     playing := playing e; time := time e; playStartTime := playStartTime e;
     songPos := songPos e; songPosLastFrame := songPosLastFrame e;
     tickSEMap := tickSEMap e; division := division e;
     currentTick := currentTick e; audio := audio e; nextID := nextID e;
     windowTitle := windowTitle e; written := v |}.

(** Modelled from the spec: [resetNextID] is defined outside
    [ScoreEditor.cpp]; the allocator starts again from its first ID, 0. *)
Definition resetNextID (e : ScoreEditor) : ScoreEditor := withNextID 0 e.

(** Modelled from the spec: [ScoreEditor::clearSelection] is defined outside
    [ScoreEditor.cpp]; it is the selection set's [clear]. *)
Definition clearSelection (e : ScoreEditor) : ScoreEditor := withSelection ∅ e.

(** [::tolower] on one character. *)
Definition tolowerChar (c : Ascii.ascii) : Ascii.ascii :=
  let n := Ascii.N_of_ascii c in
  if decide (65 ≤ n ≤ 90)%N then Ascii.ascii_of_N (n + 32) else c.

(** [std::transform(s.begin(), s.end(), s.begin(), ::tolower)] *)
Fixpoint tolower (s : string) : string :=
  match s with
  | EmptyString => EmptyString
  | String c s' => String (tolowerChar c) (tolower s')
  end.

(** [s.size()] used as a condition. *)
Definition nonEmpty (s : string) : bool :=
  match s with EmptyString => false | _ => true end.

(** *** Snapping *)

(** [TICKS_PER_BEAT / (div / 4)], which the source writes out at each use;
    [None] when a divisor is zero. *)
Definition interval (div : Z) : option Z :=
  q ← CInt.div div 4; CInt.div Constants.TICKS_PER_BEAT q.

(** [ScoreEditor::snapTick] *)
Definition snapTick (tick div : Z) : option Z :=
  i ← interval div;
  half ← CInt.div i 2;
  i' ← interval div;
  remaining ← CInt.rem tick i';
  let tick1 := tick - remaining in
  let tick2 := if decide (remaining >= half) then tick1 + half * 2 else tick1 in
  Some (Z.max tick2 0).

(** [ScoreEditor::roundTickDown] *)
Definition roundTickDown (tick div : Z) : option Z :=
  i ← interval div;
  r ← CInt.rem tick i;
  Some (Z.max (tick - r) 0).

(** [ScoreEditor::setDivision] *)
Definition setDivision (div : Z) (e : ScoreEditor) : ScoreEditor :=
  if decide (div >= 4 ∧ div <= 1920) then withDivision div e else e.

(** *** Playback *)

(** [ScoreEditor::togglePlaying] *)
Definition togglePlaying (X : Externals) (e : ScoreEditor) : ScoreEditor :=
  let e := withPlaying (xorb (playing e) true) e in
  if playing e then
    let e := withPlayStartTime (time e) e in
    withAudio (Audio.playBGM (time e)
                 (Audio.reSync (Audio.seekBGM X (time e) (audio e)))) e
  else
    withAudio (Audio.stopBGM (Audio.stopSounds X false (audio e))) e.

(** [std::to_string(note.tick) + "-" + se], the key of [tickSEMap]. *)
Definition seKey (tick : Z) (se : string) : string :=
  pretty tick +:+ "-" +:+ se.

(** [score.notes.at(score.holdNotes.at(id).end).tick]; [None] stands for the
    [std::out_of_range] of [at]. *)
Definition holdEndTick (sc : Score) (id : Z) : option Z :=
  h ← holdNotes sc !! id; n ← notes sc !! end_ h; Some (tick n).

Definition connectSE (X : Externals) (note : Note) : string :=
  if critical note then SE_CRITICAL_CONNECT X else SE_CONNECT X.

(** The body of the loop of [updateNoteSE] for one note, on the table and
    the audio manager; the other members are read only. *)
Definition noteSE (X : Externals) (e : ScoreEditor)
    (st : gmap string Z * Audio.AudioManager) (note : Note) :
    option (gmap string Z * Audio.AudioManager) :=
  let sc := score e in
  let noteTime := accumulateDuration X (tick note) Constants.TICKS_PER_BEAT (tempoChanges sc) in
  let notePlayTime := (noteTime - playStartTime e)%Q in
  let offsetNoteTime := (noteTime - audioLookAhead X)%Q in
  if Time.geb offsetNoteTime (songPosLastFrame e) && Time.ltb offsetNoteTime (songPos e)
  then
    let se := getNoteSE X note sc in
    let key := seKey (tick note) se in
    (* [if (se.size());] is an empty statement: the block below always runs *)
    let st :=
      match st.1 !! key with
      | None =>
          (<[key := tick note]> st.1,
           Audio.playSound (Some key) se (notePlayTime - audioOffsetCorrection X) (-1) st.2)
      | Some _ => st
      end in
    if decide (noteType note = Hold) then
      endTick ← holdEndTick sc (ID note);
      let endTime := accumulateDuration X endTick Constants.TICKS_PER_BEAT (tempoChanges sc) in
      Some (st.1,
            Audio.playSound None (connectSE X note)
              (notePlayTime - audioOffsetCorrection X)
              (endTime - playStartTime e - audioOffsetCorrection X) st.2)
    else Some st
  else if Time.eqb (time e) (playStartTime e) then
    (* playback just started *)
    let st :=
      if Time.geb noteTime (time e) && Time.ltb offsetNoteTime (time e) then
        let se := getNoteSE X note sc in
        let key := seKey (tick note) se in
        if nonEmpty se then
          match st.1 !! key with
          | None =>
              (<[key := tick note]> st.1,
               Audio.playSound (Some key) se notePlayTime (-1) st.2)
          | Some _ => st
          end
        else st
      else st in
    (* playback started mid-hold *)
    if decide (noteType note = Hold) then
      endTick ← holdEndTick sc (ID note);
      let endTime := accumulateDuration X endTick Constants.TICKS_PER_BEAT (tempoChanges sc) in
      if Time.leb (noteTime - time e) (audioLookAhead X) && Time.gtb endTime (time e)
      then Some (st.1,
                 Audio.playSound None (connectSE X note)
                   (Time.max 0 notePlayTime) (endTime - playStartTime e) st.2)
      else Some st
    else Some st
  else Some st.

(** The loop [for (const auto& it : score.notes)], in the order [l]. *)
Fixpoint noteSELoop (X : Externals) (e : ScoreEditor) (l : list Note)
    (st : gmap string Z * Audio.AudioManager) :
    option (gmap string Z * Audio.AudioManager) :=
  match l with
  | [] => Some st
  | note :: l' => st' ← noteSE X e st note; noteSELoop X e l' st'
  end.

(** [ScoreEditor::updateNoteSE], visiting the notes in the order [order]. *)
Definition updateNoteSEIn (X : Externals) (order : list Note) (e : ScoreEditor) :
    option ScoreEditor :=
  let e := withSongPosLastFrame (songPos e) e in
  let e :=
    withSongPos
      (if Audio.musicInitialized (audio e) && playing e
          && Time.geb (Audio.getAudioPosition (audio e))
               (wMusicOffset (workingData e) / 1000)
          && negb (Audio.isMusicAtEnd (audio e))
       then (Audio.getAudioPosition (audio e) + wMusicOffset (workingData e) / 1000)%Q
       else time e) e in
  if negb (playing e) then Some e else
  st ← noteSELoop X e order (∅, audio e);
  Some (withAudio st.2 (withTickSEMap st.1 e)).

(** [ScoreEditor::updateNoteSE]; the notes are visited in the order in which
    the map lists them. *)
Definition updateNoteSE (X : Externals) (e : ScoreEditor) : option ScoreEditor :=
  updateNoteSEIn X ((map_to_list (notes (score e))).*2) e.

(** What the host does between two calls of [updateNoteSE]: the session
    clock [time] advances and the transport reports its cursor and whether
    the track has ended. *)
Record Frame := mkFrame {
  frameTime : Q;
  frameAudioPosition : Q;
  frameAtEnd : bool;
}.

Definition hostFrame (f : Frame) (e : ScoreEditor) : ScoreEditor :=
  let a := audio e in
  withTime (frameTime f)
    (withAudio
       {| Audio.musicInitialized := Audio.musicInitialized a;
          Audio.bgmOffset := Audio.bgmOffset a;
          Audio.sampleRate := Audio.sampleRate a;
          Audio.engineTime := Audio.engineTime a;
          Audio.bgmLength := Audio.bgmLength a;
          Audio.bgmSeekFrame := Audio.bgmSeekFrame a;
          Audio.bgmCursor := frameAudioPosition f;
          Audio.bgmAtEnd := frameAtEnd f;
          Audio.bgmStarted := Audio.bgmStarted a;
          Audio.bgmStartTime := Audio.bgmStartTime a;
          Audio.sounds := Audio.sounds a;
          Audio.events := Audio.events a |} e).

(** A stretch of playback: [updateNoteSE] once per frame. *)
Fixpoint runFrames (X : Externals) (fs : list Frame) (e : ScoreEditor) :
    option ScoreEditor :=
  match fs with
  | [] => Some e
  | f :: fs' => e' ← updateNoteSE X (hostFrame f e); runFrames X fs' e'
  end.

(** *** History and the up-to-date flag *)

(** [ScoreEditor::pushHistory] *)
Definition pushHistory (X : Externals) (description : string) (prev curr : Score)
    (e : ScoreEditor) : ScoreEditor :=
  let e := withHistory (History.pushHistory description prev curr (history e)) e in
  let e :=
    if uptoDate e then
      withWindowTitle
        ("*" +:+ (if nonEmpty (filename (workingData e))
                  then getFilenameWithoutExtension X (filename (workingData e))
                  else windowUntitled X)) e
    else e in
  withUptoDate false e.

(** [ScoreEditor::undo] *)
Definition undo (e : ScoreEditor) : ScoreEditor :=
  if History.hasUndo (history e) then
    match History.undo (history e) with
    | Some (sc, h) =>
        withUptoDate false (clearSelection (withScore sc (withHistory h e)))
    | None => e
    end
  else e.

(** [ScoreEditor::redo] *)
Definition redo (e : ScoreEditor) : ScoreEditor :=
  if History.hasRedo (history e) then
    match History.redo (history e) with
    | Some (sc, h) =>
        withUptoDate false (clearSelection (withScore sc (withHistory h e)))
    | None => e
    end
  else e.

(** *** Loading and saving *)

(** [ScoreEditor::loadMusic] *)
Definition loadMusic (X : Externals) (file : string) (e : ScoreEditor) :
    ScoreEditor :=
  withWorkingData (setMusicFilename file (workingData e))
    (withAudio (Audio.changeBGM X file (audio e)) e).

(** [ScoreEditor::readScoreMetadata] *)
Definition readScoreMetadata (X : Externals) (e : ScoreEditor) : ScoreEditor :=
  let md := metadata (score e) in
  let e :=
    withWorkingData
      {| wTitle := title md; wDesigner := author md; wArtist := artist md;
         wMusicFilename := wMusicFilename (workingData e);
         wMusicOffset := musicOffset md; wJacket := jacketFile md;
         filename := filename (workingData e) |} e in
  let e := loadMusic X (musicFile md) e in
  withAudio (Audio.setBGMOffset X (time e) (wMusicOffset (workingData e)) (audio e)) e.

(** [ScoreEditor::writeScoreMetadata] *)
Definition writeScoreMetadata (e : ScoreEditor) : ScoreEditor :=
  let d := workingData e in
  withScore
    (setMetadata
       {| title := wTitle d; author := wDesigner d; artist := wArtist d;
          musicFile := wMusicFilename d; musicOffset := wMusicOffset d;
          jacketFile := wJacket d |} (score e)) e.

(** [serializeScore(score, filename)] *)
Definition serializeScore (file : string) (e : ScoreEditor) : ScoreEditor :=
  withWritten ((file, score e) :: written e) e.

(** What the [try] block of [loadScore] does once the chart is read. *)
Definition finishLoad (X : Externals) (title : string) (e : ScoreEditor) :
    ScoreEditor :=
  let e := withSelection ∅ e in
  let e := withHistory (History.clear (history e)) e in
  let e := withHasEdit false e in
  let e := readScoreMetadata X e in
  withWindowTitle title e.

(** [ScoreEditor::loadScore]. The importers either return the chart, which is
    then assigned to [score], or throw before anything is assigned; the
    handler restores [nextID]. *)
Definition loadScore (X : Externals) (file : string) (e : ScoreEditor) :
    ScoreEditor :=
  let e := if playing e then togglePlaying X e else e in
  let extension := tolower (getFileExtension X file) in
  let title := windowUntitled X in
  let nextIdBackup := nextID e in
  let e := resetNextID e in
  if decide (extension = SUS_EXTENSION X) then
    match importSUS X file (nextID e) with
    | Loaded sc n =>
        let e := withScore sc (withNextID n e) in
        let e := withWorkingData (setFilename "" (workingData e)) e in
        (* project not saved *)
        let e := withUptoDate false e in
        finishLoad X title e
    | Threw _ n => withNextID nextIdBackup (withNextID n e)
    end
  else if decide (extension = MMWS_EXTENSION X) then
    match deserializeScore X file (nextID e) with
    | Loaded sc n =>
        let e := withScore sc (withNextID n e) in
        let e := withUptoDate true e in
        let e := withWorkingData (setFilename file (workingData e)) e in
        finishLoad X (getFilenameWithoutExtension X file) e
    | Threw _ n => withNextID nextIdBackup (withNextID n e)
    end
  else finishLoad X title e.

(** [ScoreEditor::saveAs]; [choice] is the file picked in the dialog,
    [None] when it is dismissed. *)
Definition saveAs (X : Externals) (choice : option string) (e : ScoreEditor) :
    ScoreEditor :=
  match choice with
  | Some file =>
      let e := withWorkingData (setFilename file (workingData e)) e in
      let e := serializeScore file (writeScoreMetadata e) in
      let e := withUptoDate true e in
      withWindowTitle (getFilenameWithoutExtension X (filename (workingData e))) e
  | None => e
  end.

(** [ScoreEditor::save()] *)
Definition save (X : Externals) (choice : option string) (e : ScoreEditor) :
    ScoreEditor :=
  if nonEmpty (filename (workingData e)) then
    let e := serializeScore (filename (workingData e)) (writeScoreMetadata e) in
    let e := withUptoDate true e in
    withWindowTitle (getFilenameWithoutExtension X (filename (workingData e))) e
  else saveAs X choice e.

(** [ScoreEditor::save(const std::string&)] *)
Definition saveTo (file : string) (e : ScoreEditor) : ScoreEditor :=
  serializeScore file (writeScoreMetadata e).

(** *** Releasing a note: hold normalisation *)

Definition belongsTo (id h : Z) (hold : HoldNote) : bool :=
  bool_decide (id = h) || bool_decide (id = end_ hold)
  || bool_decide (id ∈ stepID <$> steps hold).

(** Modelled from the spec: [ScoreSelection::getHolds] is defined outside
    [ScoreEditor.cpp]; the specification has it map the selected note IDs to
    the holds they belong to, without duplicates. *)
Definition getHolds (sel : gset Z) (sc : Score) : gset Z :=
  dom (filter (λ kv, set_Exists (λ id, belongsTo id kv.1 kv.2 = true) sel)
         (holdNotes sc)).

(** The repair of one hold in [noteControl], up to [pushHistory]. [start],
    [end], [firstMid] and [lastMid] are references into [score.notes]; a
    failed [at] is [None]. *)
Definition normalizeHold (id : Z) (sc : Score) : option Score :=
  hold ← holdNotes sc !! id;
  start ← notes sc !! id;
  end' ← notes sc !! end_ hold;
  let ns :=
    if decide (tick start > tick end') then swapTickLane id (end_ hold) (notes sc)
    else notes sc in
  sorted ← sortHoldSteps ns (steps hold);
  ns ← match sorted with
       | [] => Some ns
       | first :: _ =>
           (* ensure hold steps are between the start and end *)
           firstMid ← ns !! stepID first;
           start ← ns !! id;
           let ns :=
             if decide (tick start > tick firstMid)
             then swapTickLane id (stepID first) ns else ns in
           lastStep ← last sorted;
           lastMid ← ns !! stepID lastStep;
           end' ← ns !! end_ hold;
           Some (if decide (tick end' < tick lastMid)
                 then swapTickLane (end_ hold) (stepID lastStep) ns else ns)
       end;
  Some (setNotes ns (setHoldNotes (<[id := setSteps sorted hold]> (holdNotes sc)) sc)).

(** One turn of the loop [for (int id : sortHolds)]. *)
Definition releaseHold (X : Externals) (id : Z) (e : ScoreEditor) :
    option ScoreEditor :=
  sc ← normalizeHold id (score e);
  let e := withScore sc e in
  let e := pushHistory X "Update notes" (prevUpdateScore e) (score e) e in
  let e := withSkipUpdate true e in
  Some (withHasEdit false e).

Fixpoint releaseHolds (X : Externals) (ids : list Z) (e : ScoreEditor) :
    option ScoreEditor :=
  match ids with
  | [] => Some e
  | id :: ids' => e' ← releaseHold X id e; releaseHolds X ids' e'
  end.

(** What ImGui reports for the note's button in this frame. *)
Record ItemState := mkItem {
  activated : bool;
  active : bool;
  deactivated : bool;
}.

(** [ScoreEditor::noteControl], without the cursor bookkeeping. *)
Definition noteControl (X : Externals) (item : ItemState) (e : ScoreEditor) :
    option (bool * ScoreEditor) :=
  (* note clicked *)
  let e := if activated item then withPrevUpdateScore (score e) e else e in
  (* holding note *)
  if active item then Some (true, withIsHoldingNote true e) else
  (* note released *)
  if deactivated item then
    let e := withIsHoldingNote false e in
    if hasEdit e then
      let sortHolds := getHolds (selection e) (score e) in
      e' ← releaseHolds X (elements sortHolds) e;
      Some (false, e')
    else Some (false, e)
  else Some (false, e).

(** Hold-release normalisation as the specification names it: the release
    of a note after an edit. *)
Definition release (X : Externals) (e : ScoreEditor) : option ScoreEditor :=
  snd <$> noteControl X (mkItem false false true) (withHasEdit true e).

(** *** Transport controls and the cursor *)

Definition withCurrentTick (v : Z) (e : ScoreEditor) : ScoreEditor :=
  {| score := score e; prevUpdateScore := prevUpdateScore e;
     selection := selection e; history := history e;
     workingData := workingData e; hasEdit := hasEdit e;
     uptoDate := uptoDate e; isHoldingNote := isHoldingNote e;
     skipUpdateAfterSortingSteps := skipUpdateAfterSortingSteps e;
     playing := playing e; time := time e; playStartTime := playStartTime e;
     songPos := songPos e; songPosLastFrame := songPosLastFrame e;
     tickSEMap := tickSEMap e; division := division e; currentTick := v;
     audio := audio e; nextID := nextID e; windowTitle := windowTitle e;
     written := written e |}.

(** [ScoreEditor::stop], without the scrolling of the canvas. *)
Definition stop (X : Externals) (e : ScoreEditor) : ScoreEditor :=
  let e := withPlaying false e in
  let e := withCurrentTick 0 (withTime 0 e) in
  withAudio (Audio.stopBGM (Audio.stopSounds X false (audio e))) e.

(** [ScoreEditor::restart] *)
Definition restart (X : Externals) (e : ScoreEditor) : ScoreEditor :=
  togglePlaying X (stop X e).



(** [ScoreEditor::resetEditor]; [EditorScoreData{}] and [Score{}] are the
    empty working data and the empty chart. *)
Definition resetEditor (X : Externals) (e : ScoreEditor) : ScoreEditor :=
  let e := withPlaying false e in
  let e := withAudio (Audio.stopBGM (Audio.stopSounds X false (audio e))) e in
  let e := withSelection ∅ e in
  let e := withHistory (History.clear (history e)) e in
  let e := resetNextID e in
  let e := withWorkingData (mkData "" "" "" "" 0 "" "") e in
  let e := withScore Score.empty e in
  let e := withHasEdit false e in
  withUptoDate true e.

(** [ScoreEditor::reset] *)
Definition reset (X : Externals) (e : ScoreEditor) : ScoreEditor :=
  let e := resetEditor X e in
  let e := withAudio (Audio.disposeBGM (audio e)) e in
  withWindowTitle (windowUntitled X) e.

(** [std::clamp(v, lo, hi)]; undefined when [hi < lo]. *)
Definition clamp (v lo hi : Z) : option Z :=
  if decide (hi < lo) then None
  else Some (if decide (v < lo) then lo else if decide (hi < v) then hi else v).

(** [ScoreEditor::laneFromCenterPos]; the lane bounds [MIN_LANE] and
    [MAX_LANE] of [Constants.h] are parameters. *)
Definition laneFromCenterPos (MIN_LANE MAX_LANE lane width : Z) : option Z :=
  clamp (lane - Z.quot width 2) MIN_LANE (MAX_LANE - width + 1).

(** *** Input modes *)

Inductive TimelineMode :=
  | Select | InsertTap | InsertLong | InsertLongMid | InsertFlick
  | MakeCritical | InsertBPM | InsertTimeSign.

Global Instance TimelineMode_eq_dec : EqDecision TimelineMode.
Proof. solve_decision. Defined.

(** Modelled from the spec: the enumeration [HoldStepType] is declared in
    [Score.h]; the specification lists its values as Visible, Invisible,
    Ignored, which gives the integers that [changeMode] computes with. *)
Definition stepTypeToInt (t : HoldStepType) : Z :=
  match t with Visible => 0 | Invisible => 1 | Ignored => 2 end.

Definition stepTypeOfInt (n : Z) : HoldStepType :=
  if decide (n = 0) then Visible else if decide (n = 1) then Invisible else Ignored.

(** The members that [changeMode] reads and writes. *)
Record ModeState := mkModeState {
  currentMode : TimelineMode;
  defaultStepType : HoldStepType;
  dummy : Note;
}.

Definition setFlickCritical (f : FlickType) (c : bool) (n : Note) : Note :=
  {| noteType := noteType n; ID := ID n; tick := tick n; lane := lane n;
     width := width n; critical := c; flick := f |}.

(** [ScoreEditor::changeMode] *)
Definition changeMode (mode : TimelineMode) (st : ModeState) : ModeState :=
  let st :=
    match mode with
    | InsertTap =>
        mkModeState (currentMode st) (defaultStepType st)
          (setFlickCritical FlickNone false (dummy st))
    | InsertFlick =>
        mkModeState (currentMode st) (defaultStepType st)
          (setFlickCritical FlickUp false (dummy st))
    | MakeCritical =>
        mkModeState (currentMode st) (defaultStepType st)
          (setFlickCritical FlickNone true (dummy st))
    | InsertLongMid =>
        if decide (currentMode st = InsertLongMid) then
          mkModeState (currentMode st)
            (stepTypeOfInt (Z.rem (stepTypeToInt (defaultStepType st) + 1) 3))
            (dummy st)
        else st
    | _ => st
    end in
  mkModeState mode (defaultStepType st) (dummy st).

(** *** Selection by dragging a rectangle *)

(** What [calcDragSelection] takes from the canvas and from [Utilities.h]:
    the horizontal position of a lane, the vertical position of a tick and
    the range test [isWithinRange(x, lo, hi)]. *)
Record Canvas := mkCanvas {
  laneToPosition : Z → Q;
  tickToPosition : Z → Q;
  isWithinRange : Q → Q → Q → bool;
}.

(** [std::min] on floats. *)
Definition fmin (a b : Q) : Q := if Time.ltb b a then b else a.

(** The test of [calcDragSelection] on one note, for the rectangle spanned
    by [dragStart] and [mousePos]. *)
Definition inDragRectangle (C : Canvas) (dragStart mousePos : Q * Q) (note : Note) :
    bool :=
  let left := fmin dragStart.1 mousePos.1 in
  let right := Time.max dragStart.1 mousePos.1 in
  let top := fmin dragStart.2 mousePos.2 in
  let bottom := Time.max dragStart.2 mousePos.2 in
  let x1 := laneToPosition C (lane note) in
  let x2 := laneToPosition C (lane note + width note) in
  let y := (- tickToPosition C (tick note))%Q in
  Time.gtb right x1 && Time.ltb left x2
  && isWithinRange C y (top - 10) (bottom + 10).

(** The loop of [calcDragSelection] on the selection, in the order [l];
    [selection.remove] and [selection.append] are the removal from and the
    insertion into the set of selected IDs. *)
Fixpoint dragSelect (C : Canvas) (alt : bool) (dragStart mousePos : Q * Q)
    (l : list Note) (sel : gset Z) : gset Z :=
  match l with
  | [] => sel
  | note :: l' =>
      let sel :=
        if inDragRectangle C dragStart mousePos note then
          if alt then sel ∖ {[ ID note ]} else {[ ID note ]} ∪ sel
        else sel in
      dragSelect C alt dragStart mousePos l' sel
  end.

(** [ScoreEditor::calcDragSelection]; [alt] and [ctrl] are
    [InputListener::isAltDown()] and [InputListener::isCtrlDown()]. *)
Definition calcDragSelection (C : Canvas) (alt ctrl : bool)
    (dragStart mousePos : Q * Q) (e : ScoreEditor) : ScoreEditor :=
  let e := if negb alt && negb ctrl then withSelection ∅ e else e in
  withSelection
    (dragSelect C alt dragStart mousePos
       ((map_to_list (notes (score e))).*2) (selection e)) e.

End Editor.

(** ** The properties, in the words of the specification *)

Module Spec.

Import Score Editor.

(** The divisions [setDivision] accepts. *)
Definition accepted (div : Z) : Prop := 4 ≤ div ≤ 1920.

(** The multiple of [i] nearest to [tick], the upper one when [tick] is
    halfway between two, and never below 0. *)
Definition nearestMultiple (tick i : Z) : Z :=
  Z.max (i * ((2 * tick + i) `div` (2 * i))) 0.

(** The greatest multiple of [i] that is at most [tick], never below 0. *)
Definition floorMultiple (tick i : Z) : Z :=
  Z.max (i * (tick `div` i)) 0.

(** The parse or deserialize step that [loadScore] runs for a file, if any;
    the ID allocator has just been reset. *)
Definition parseStep (X : Externals) (file : string) : option LoadResult :=
  let extension := tolower (getFileExtension X file) in
  if decide (extension = SUS_EXTENSION X) then Some (importSUS X file 0)
  else if decide (extension = MMWS_EXTENSION X)
       then Some (deserializeScore X file 0)
       else None.

(** The load fails: the parse or deserialize step throws. *)
Definition loadFails (X : Externals) (file : string) : Prop :=
  ∃ what n, parseStep X file = Some (Threw what n).

(** The frame a seek to [time] targets, [seekFrame] in [seekBGM]. *)
Definition seekTarget (X : Externals) (time : Q) (a : Audio.AudioManager) : N :=
  toFrame X ((time - Audio.bgmOffset a) * inject_Z (Audio.sampleRate a))%Q.

(** A one-shot effect requested under the table entry [key]. *)
Definition isFiring (key : string) (ev : Audio.Event) : bool :=
  match ev with
  | Audio.Play (Some k) _ _ _ => bool_decide (k = key)
  | _ => false
  end.

(** How often the effect of the table entry [key] has been triggered. *)
Definition firings (key : string) (a : Audio.AudioManager) : nat :=
  length (List.filter (isFiring key) (Audio.events a)).

(** The table entry of a note. *)
Definition keyOf (X : Externals) (e : ScoreEditor) (n : Note) : string :=
  seKey (tick n) (getNoteSE X n (score e)).

(** The nominal time of a note and its lookahead-adjusted fire instant. *)
Definition noteTime (X : Externals) (e : ScoreEditor) (n : Note) : Q :=
  accumulateDuration X (tick n) Constants.TICKS_PER_BEAT (tempoChanges (score e)).

Definition fireInstant (X : Externals) (e : ScoreEditor) (n : Note) : Q :=
  (noteTime X e n - audioLookAhead X)%Q.

(** The position [songPos] that a frame yields while playing. *)
Definition framePos (e : ScoreEditor) (f : Frame) : Q :=
  if Audio.musicInitialized (audio e) && playing e
     && Time.geb (frameAudioPosition f) (wMusicOffset (workingData e) / 1000)
     && negb (frameAtEnd f)
  then (frameAudioPosition f + wMusicOffset (workingData e) / 1000)%Q
  else frameTime f.

(** The fire instant lies in the frame's window [[prev, cur)]. *)
Definition crosses (X : Externals) (e : ScoreEditor) (n : Note) (prev cur : Q) :
    bool :=
  Time.geb (fireInstant X e n) prev && Time.ltb (fireInstant X e n) cur.

(** The frame is taken for the first of the run ([time == playStartTime])
    and the note is inside its lookahead at that moment. *)
Definition startsInside (X : Externals) (e : ScoreEditor) (n : Note) (f : Frame) :
    bool :=
  Time.eqb (frameTime f) (playStartTime e)
  && Time.geb (noteTime X e n) (frameTime f)
  && Time.ltb (fireInstant X e n) (frameTime f)
  && nonEmpty (getNoteSE X n (score e)).

(** How often the position sequence of a run crosses the fire instant. *)
Fixpoint crossings (X : Externals) (e : ScoreEditor) (n : Note) (prev : Q)
    (fs : list Frame) : nat :=
  match fs with
  | [] => 0
  | f :: fs' =>
      (if crosses X e n prev (framePos e f) then 1 else 0)%nat
      + crossings X e n (framePos e f) fs'
  end.

(** How many frames of a run are taken for its first with the note inside
    its lookahead, without crossing its fire instant. *)
Fixpoint startFirings (X : Externals) (e : ScoreEditor) (n : Note) (prev : Q)
    (fs : list Frame) : nat :=
  match fs with
  | [] => 0
  | f :: fs' =>
      (if negb (crosses X e n prev (framePos e f)) && startsInside X e n f
       then 1 else 0)%nat
      + startFirings X e n (framePos e f) fs'
  end.

(** Every hold start has its hold and its end note. *)
Definition holdsComplete (sc : Score) : Prop :=
  ∀ i n, notes sc !! i = Some n → noteType n = Hold →
         is_Some (holdEndTick sc (ID n)).

(** Decimal digits, for the shape of [std::to_string] of an [int]. *)
Definition isDigit (c : ascii) : bool :=
  bool_decide (48 ≤ N_of_ascii c ≤ 57)%N.

Fixpoint digits (s : string) : bool :=
  match s with
  | EmptyString => true
  | String c s' => isDigit c && digits s'
  end.

(** The note fires in the frame the editor is in. *)
Definition firesIn (X : Externals) (e : ScoreEditor) (n : Note) : bool :=
  Spec.crosses X e n (songPosLastFrame e) (songPos e)
  || (Time.eqb (time e) (playStartTime e)
      && Time.geb (Spec.noteTime X e n) (time e)
      && Time.ltb (Spec.fireInstant X e n) (time e)
      && nonEmpty (getNoteSE X n (score e))).

Definition bump (b : bool) : nat := if b then 1%nat else 0%nat.

(** What stays the same during a run of playback. *)
Definition sameRun (e e' : ScoreEditor) : Prop :=
  score e' = score e ∧ playing e' = playing e ∧
  playStartTime e' = playStartTime e ∧ workingData e' = workingData e ∧
  Audio.musicInitialized (audio e') = Audio.musicInitialized (audio e) ∧
  Audio.sounds (audio e') = Audio.sounds (audio e).

(** What a request to an effect leaves of the transport. *)
Definition sameTransport (a a' : Audio.AudioManager) : Prop :=
  Audio.musicInitialized a' = Audio.musicInitialized a ∧
  Audio.sounds a' = Audio.sounds a.

(** Some note of the list has the table entry [k]. *)
Definition present (X : Externals) (e : ScoreEditor) (k : string) (l : list Note) : bool :=
  existsb (λ n, bool_decide (Spec.keyOf X e n = k)) l.


(** The positions of a run never go back. *)
Fixpoint nondecreasing (e : ScoreEditor) (prev : Q) (fs : list Frame) : bool :=
  match fs with
  | [] => true
  | f :: fs' => Qle_bool prev (framePos e f) && nondecreasing e (framePos e f) fs'
  end.


(** The IDs of the notes of [l] inside the dragged rectangle. *)
Definition dragHits (C : Canvas) (dragStart mousePos : Q * Q) (l : list Note) :
    gset Z :=
  list_to_set (ID <$> filter (λ n, inDragRectangle C dragStart mousePos n = true) l).

End Spec.

(** ** A small chart and session to run the editor on *)

Module Sample.

Import Score Editor.

(** The part of a file name from its last dot. *)
Fixpoint extensionOf (s : string) : string :=
  match s with
  | EmptyString => EmptyString
  | String c s' =>
      match extensionOf s' with
      | EmptyString => if decide (c = "."%char) then s else EmptyString
      | r => r
      end
  end.

Definition tapNote (id t : Z) : Note := mkNote Tap id t 3 3 false FlickNone.

Definition loadedScore : Score.Score :=
  setNotes {[ 0 := tapNote 0 480 ]} Score.empty.

(** 120 beats per minute throughout: 960 ticks per second. *)
Definition X0 : Externals :=
  {| SUS_EXTENSION := ".sus";
     MMWS_EXTENSION := ".mmws";
     SE_CONNECT := "connect";
     SE_CRITICAL_CONNECT := "critical_connect";
     windowUntitled := "Untitled";
     audioLookAhead := 1 # 20;
     audioOffsetCorrection := 1 # 50;
     toFrame := λ q, Z.to_N (Qfloor q);
     accumulateDuration := λ t tpb _, (inject_Z t / (2 * inject_Z tpb))%Q;
     getNoteSE := λ n _,
       match noteType n with
       | HoldMid => ""
       | _ => if critical n then "critical_tap" else "perfect"
       end;
     getFileExtension := extensionOf;
     getFilenameWithoutExtension := λ s, s;
     importSUS := λ f n,
       if decide (f = "broken.sus") then Threw "unexpected end of file" (n + 7)
       else Loaded loadedScore (n + 1);
     deserializeScore := λ f n,
       if decide (f = "broken.mmws") then Threw "bad header" (n + 2)
       else Loaded loadedScore (n + 1);
     loadTrack := λ _, Some 4800000%N |}.

Definition audio0 : Audio.AudioManager :=
  {| Audio.musicInitialized := true; Audio.bgmOffset := 0;
     Audio.sampleRate := 48000; Audio.engineTime := 0;
     Audio.bgmLength := Some 4800000%N; Audio.bgmSeekFrame := 0%N;
     Audio.bgmCursor := 0; Audio.bgmAtEnd := false;
     Audio.bgmStarted := false; Audio.bgmStartTime := 0;
     Audio.sounds := {[ "perfect"; "critical_tap"; "connect"; "critical_connect" ]};
     Audio.events := [] |}.

(** The same transport after the track has played to its end. *)
Definition audioEnded : Audio.AudioManager := Audio.setBgmAtEnd true audio0.

(** A hold from tick 10 to tick 20 with steps at ticks 5 and 7: its start
    (note 1) has been dragged past both steps. *)
Definition draggedScore : Score.Score :=
  {| metadata := metadata Score.empty;
     notes := {[ 1 := mkNote Hold 1 10 0 3 false FlickNone;
                 2 := mkNote HoldEnd 2 20 6 3 false FlickNone;
                 3 := mkNote HoldMid 3 5 2 3 false FlickNone;
                 4 := mkNote HoldMid 4 7 4 3 false FlickNone ]};
     holdNotes := {[ 1 := mkHoldNote (mkHoldStep 1 Visible EaseNone)
                            [mkHoldStep 3 Visible EaseNone;
                             mkHoldStep 4 Visible EaseNone] 2 ]};
     tempoChanges := [mkTempo 0 120];
     timeSignatures := {[ 0 := mkTimeSignature 4 4 ]} |}.

(** The same hold with its end (note 2) dragged below both steps, which
    are at ticks 25 and 30. *)
Definition draggedEndScore : Score.Score :=
  setNotes
    (<[3 := mkNote HoldMid 3 25 2 3 false FlickNone]>
       (<[4 := mkNote HoldMid 4 30 4 3 false FlickNone]> (notes draggedScore)))
    draggedScore.

(** A fresh editor, as the constructor and [resetEditor] leave it. *)
Definition editor0 : ScoreEditor :=
  {| score := Score.empty; prevUpdateScore := Score.empty; selection := ∅;
     history := History.mkHistory [] [];
     workingData := mkData "" "" "" "" 0 "" "";
     hasEdit := false; uptoDate := true; isHoldingNote := false;
     skipUpdateAfterSortingSteps := false; playing := false; time := 0;
     playStartTime := 0; songPos := 0; songPosLastFrame := 0; tickSEMap := ∅;
     division := 8; currentTick := 0; audio := audio0; nextID := 0;
     windowTitle := "Untitled"; written := [] |}.

(** The editor at the moment the dragged start note is let go. *)
Definition dragged : ScoreEditor :=
  withHasEdit true
    (withSelection {[ 1 ]}
       (withNextID 5 (withPrevUpdateScore draggedScore (withScore draggedScore editor0)))).

Definition released : ItemState := mkItem false false true.

(** A saved project with one edit in its history. *)
Definition saved : ScoreEditor :=
  withSelection {[ 0 ]}
    (withHistory (History.mkHistory [History.mkEntry "Insert note" Score.empty loadedScore] [])
       (withWorkingData (mkData "" "" "" "" 0 "" "song.mmws")
          (withNextID 1 (withScore loadedScore editor0)))).

(** A chart with one tap at tick 9592, whose nominal time is 9.9917 s and
    whose fire instant is 9.9417 s, being played from 9.95 s on: the session
    clock is at 9.95 s and the previous (idle) frame left [songPos] there. *)
Definition tapScore : Score.Score :=
  {| metadata := metadata Score.empty;
     notes := {[ 7 := tapNote 7 9592 ]};
     holdNotes := ∅;
     tempoChanges := [mkTempo 0 120];
     timeSignatures := {[ 0 := mkTimeSignature 4 4 ]} |}.

Definition started : ScoreEditor :=
  withPlaying true
    (withTime (995 # 100)
       (withPlayStartTime (995 # 100)
          (withSongPos (995 # 100) (withScore tapScore editor0)))).

(** The transport reports 9.94 s in the first frame, a little behind the
    clock, and 9.96 s in the second. *)
Definition frame1 : Frame := mkFrame (995 # 100) (994 # 100) false.
Definition frame2 : Frame := mkFrame (9966 # 1000) (996 # 100) false.

(** A frame in which the transport has not reached the fire instant yet. *)
Definition frameQuiet : Frame := mkFrame (9966 # 1000) (9941 # 1000) false.

(** The same chart played from 9.90 s on, over four frames at 60 Hz. *)
Definition startedEarly : ScoreEditor :=
  withPlaying true
    (withTime (990 # 100)
       (withPlayStartTime (990 # 100)
          (withSongPos (990 # 100) (withScore tapScore editor0)))).

Definition frames : list Frame :=
  [ mkFrame (9916 # 1000) (991 # 100) false;
    mkFrame (9933 # 1000) (993 # 100) false;
    mkFrame (9950 # 1000) (9945 # 1000) false;
    mkFrame (9966 # 1000) (996 # 100) false ].

(** A hold with one step, whose start (note 1) has been dragged above the
    end: start at tick 30, step at tick 5, end at tick 20. *)
Definition oneStepScore : Score.Score :=
  {| metadata := metadata Score.empty;
     notes := {[ 1 := mkNote Hold 1 30 0 3 false FlickNone;
                 2 := mkNote HoldEnd 2 20 6 3 false FlickNone;
                 3 := mkNote HoldMid 3 5 2 3 false FlickNone ]};
     holdNotes := {[ 1 := mkHoldNote (mkHoldStep 1 Visible EaseNone)
                            [mkHoldStep 3 Visible EaseNone] 2 ]};
     tempoChanges := [mkTempo 0 120];
     timeSignatures := {[ 0 := mkTimeSignature 4 4 ]} |}.


(** A chart whose only note is a hold start without a hold, at the start of
    playback. *)
Definition orphanScore : Score.Score :=
  setNotes {[ 9 := mkNote Hold 9 9592 0 3 false FlickNone ]} tapScore.

Definition orphanStarted : ScoreEditor := withScore orphanScore started.

(** The button of a note while it is held down. *)
Definition held : ItemState := mkItem false true false.

End Sample.

(** * Properties *)

Import Score Editor.

(** ** Snapping *)

Section Snapping.

Lemma CInt_div_Some a b : b ≠ 0 → CInt.div a b = Some (Z.quot a b).
Proof. intros Hb. unfold CInt.div. by rewrite decide_False. Qed.

Lemma CInt_rem_Some a b : b ≠ 0 → CInt.rem a b = Some (Z.rem a b).
Proof. intros Hb. unfold CInt.rem. by rewrite decide_False. Qed.

(** A zero divisor is an error in the model, so that a result of [Some]
    means that no division by zero took place. *)
Lemma CInt_div_zero a : CInt.div a 0 = None ∧ CInt.rem a 0 = None.
Proof. split; reflexivity. Qed.

Lemma interval_accepted div :
  Spec.accepted div →
  ∃ i, interval div = Some i ∧ 1 ≤ Z.quot div 4 ≤ 480 ∧ 1 ≤ i ≤ 480.
Proof.
  intros [Hlo Hhi]. unfold interval.
  rewrite CInt_div_Some by lia. simpl.
  assert (Hq : 1 ≤ Z.quot div 4 ≤ 480).
  { rewrite Z.quot_div_nonneg by lia. split.
    - apply Z.div_le_lower_bound; lia.
    - apply Z.div_le_upper_bound; lia. }
  rewrite CInt_div_Some by lia.
  eexists; split; [reflexivity|]. split; [exact Hq|].
  unfold Constants.TICKS_PER_BEAT. rewrite Z.quot_div_nonneg by lia. split.
  - apply Z.div_le_lower_bound; lia.
  - apply Z.div_le_upper_bound; nia.
Qed.

(** [roundTickDown] is the floor to the interval for every tick from 0 on. *)
Lemma roundTickDown_floor tick div :
  0 ≤ tick → Spec.accepted div →
  ∃ i, interval div = Some i ∧
       roundTickDown tick div = Some (Spec.floorMultiple tick i).
Proof.
  intros Ht Hd. destruct (interval_accepted div Hd) as (i & Hi & _ & Hi1).
  exists i. split; [exact Hi|]. unfold roundTickDown. rewrite Hi. simpl.
  rewrite CInt_rem_Some by lia. simpl. unfold Spec.floorMultiple.
  rewrite Z.rem_mod_nonneg by lia.
  do 2 f_equal. rewrite Z.mod_eq by lia. lia.
Qed.

(** [snapTick] rounds to the nearest multiple when the interval is even or
    1: [half * 2] is then the interval itself. *)
Lemma snapTick_even_interval tick div i :
  0 ≤ tick → Spec.accepted div → interval div = Some i →
  (i = 1 ∨ Z.even i = true) →
  snapTick tick div = Some (Spec.nearestMultiple tick i).
Proof.
  intros Ht Hd Hi Hev.
  destruct (interval_accepted div Hd) as (i' & Hi' & _ & Hi1).
  rewrite Hi in Hi'. injection Hi' as <-.
  unfold snapTick. rewrite Hi. simpl.
  rewrite CInt_rem_Some by lia. simpl.
  unfold Spec.nearestMultiple.
  rewrite Z.rem_mod_nonneg by lia.
  rewrite (Z.quot_div_nonneg i 2) by lia.
  f_equal. f_equal.
  destruct Hev as [-> | Hev].
  - change (1 `div` 2) with 0. rewrite Z.mod_1_r.
    rewrite decide_True by lia.
    assert ((2 * tick + 1) `div` (2 * 1) = tick).
    { symmetry. apply (Z.div_unique _ _ _ 1); lia. }
    lia.
  - apply Z.even_spec in Hev as [k ->].
    assert (Hk : 0 < k) by lia.
    replace ((2 * k) `div` 2) with k by (rewrite Z.mul_comm, Z.div_mul; lia).
    pose proof (Z.mod_pos_bound tick (2 * k) ltac:(lia)) as Hr.
    pose proof (Z.div_mod tick (2 * k) ltac:(lia)) as Hdm.
    set (q := tick `div` (2 * k)) in *. set (r := tick `mod` (2 * k)) in *.
    case_decide as Hc.
    + assert ((2 * tick + 2 * k) `div` (2 * (2 * k)) = q + 1) as ->; [|lia].
      symmetry. apply (Z.div_unique _ _ _ (2 * r - 2 * k)); lia.
    + assert ((2 * tick + 2 * k) `div` (2 * (2 * k)) = q) as ->; [|lia].
      symmetry. apply (Z.div_unique _ _ _ (2 * r + 2 * k)); lia.
Qed.

(** C5. [snapTick] is meant to return the multiple of the interval nearest to
    the tick. At division 128 the interval is 15 ticks, [half] is 7 and
    [half * 2] is 14: tick 8 is snapped to 14, which is no multiple of 15,
    where the nearest multiple is 15; tick 7, nearer to 0, goes to 14 too.
    [roundTickDown] floors as it should. *)
Theorem snapTick_odd_interval :
  Spec.accepted 128 ∧ interval 128 = Some 15 ∧
  snapTick 8 128 = Some 14 ∧ Spec.nearestMultiple 8 15 = 15 ∧
  snapTick 7 128 = Some 14 ∧ Spec.nearestMultiple 7 15 = 0 ∧
  ¬ (15 | 14) ∧
  roundTickDown 8 128 = Some (Spec.floorMultiple 8 15).
Proof.
  repeat split; try reflexivity; try (unfold Spec.accepted; lia).
  intros [k Hk]. lia.
Qed.

(** C9. No division and no remainder in [snapTick] and [roundTickDown] has a
    zero divisor for a division the editor can hold: [setDivision] keeps the
    division within 4..1920, and for such a division [division / 4] and
    [TICKS_PER_BEAT / (division / 4)] are both at least 1. *)
Theorem snapping_never_divides_by_zero (e : ScoreEditor) (div tick : Z) :
  Spec.accepted (division e) →
  let d := division (setDivision div e) in
  Spec.accepted d ∧
  (∃ q, CInt.div d 4 = Some q ∧ 1 ≤ q) ∧
  (∃ i, interval d = Some i ∧ 1 ≤ i) ∧
  is_Some (snapTick tick d) ∧ is_Some (roundTickDown tick d).
Proof.
  intros He d.
  assert (Hd : Spec.accepted d).
  { subst d. unfold setDivision. case_decide; simpl; [unfold Spec.accepted; lia | done]. }
  destruct (interval_accepted d Hd) as (i & Hi & Hq & Hi1).
  split; [exact Hd|]. split; [|split; [|split]].
  - exists (Z.quot d 4). split; [apply CInt_div_Some; lia | lia].
  - exists i. split; [exact Hi | lia].
  - unfold snapTick. rewrite Hi. simpl. rewrite CInt_rem_Some by lia. simpl. eauto.
  - unfold roundTickDown. rewrite Hi. simpl. rewrite CInt_rem_Some by lia. simpl. eauto.
Qed.

Lemma snapping_never_divides_by_zero_witness :
  Spec.accepted (division Sample.editor0) ∧
  let d := division (setDivision 1920 Sample.editor0) in
  Spec.accepted d ∧
  (∃ q, CInt.div d 4 = Some q ∧ 1 ≤ q) ∧
  (∃ i, interval d = Some i ∧ 1 ≤ i) ∧
  is_Some (snapTick 100 d) ∧ is_Some (roundTickDown 100 d).
Proof.
  assert (H : Spec.accepted (division Sample.editor0))
    by (unfold Spec.accepted; simpl; lia).
  split; [exact H|].
  exact (snapping_never_divides_by_zero Sample.editor0 1920 100 H).
Defined.

End Snapping.

(** ** Hold normalisation on release *)

Section HoldRelease.

(** The steps of the dragged hold are in tick order already, with distinct
    ticks: whatever way [sortHoldSteps] sorts by tick, it returns them as
    they are. *)
Lemma dragged_steps_sort_forced (l : list HoldStep) :
  l ≡ₚ [mkHoldStep 3 Visible EaseNone; mkHoldStep 4 Visible EaseNone] →
  (∃ ts, mapM (stepTick (notes Sample.draggedScore)) l = Some ts ∧
         ascending ts = true) →
  Some l = sortHoldSteps (notes Sample.draggedScore)
             [mkHoldStep 3 Visible EaseNone; mkHoldStep 4 Visible EaseNone].
Proof.
  intros Hperm (ts & Hts & Hasc).
  symmetry in Hperm. apply Permutation_length_2_inv in Hperm as [-> | ->].
  - vm_compute. reflexivity.
  - vm_compute in Hts. injection Hts as <-. vm_compute in Hasc. discriminate.
Qed.

(** C1. Releasing a hold start that was dragged past the first two steps of
    its hold (start at tick 10, steps at 5 and 7, end at 20): the steps are
    sorted, then the start and the first step exchange their ticks, which
    leaves the ticks 5, 10, 7, 20. Every step is between the start and the
    end, as the comment in the source asks, but the steps are no longer in
    order. *)
Theorem release_leaves_steps_unordered :
  ∃ e', noteControl Sample.X0 Sample.released Sample.dragged = Some (false, e') ∧
        getHolds (selection Sample.dragged) (score Sample.dragged) = {[ 1 ]} ∧
        holdTicks (score e') 1 = Some [5; 10; 7; 20] ∧
        holdOrdered (score e') 1 = false ∧
        stepsWithin (score e') 1 = true.
Proof.
  eexists. split; [vm_compute; reflexivity|].
  split; [apply set_eq; intros x; vm_compute; tauto|].
  repeat split; vm_compute; reflexivity.
Qed.

(** The same at the other end: with the end at tick 20 below the steps at
    25 and 30, the end and the last step exchange their ticks and the steps
    are left as 25, 20. *)
Example release_end_below_steps :
  (sc ← normalizeHold 1 Sample.draggedEndScore; holdTicks sc 1)
  = Some [10; 25; 20; 30].
Proof. vm_compute. reflexivity. Qed.

(** C4. Normalising the same hold once more sorts the steps that the first
    run left out of order: the second run changes the order of the steps
    (from 3, 4 to 4, 3), so that two runs do not give what one run gives. *)
Theorem normalizeHold_twice_differs :
  ∃ sc1 sc2,
    normalizeHold 1 Sample.draggedScore = Some sc1 ∧
    normalizeHold 1 sc1 = Some sc2 ∧
    stepIDs sc1 1 = Some [3; 4] ∧
    stepIDs sc2 1 = Some [4; 3] ∧
    holdTicks sc1 1 = Some [5; 10; 7; 20] ∧
    holdTicks sc2 1 = Some [5; 7; 10; 20] ∧
    sc1 ≠ sc2.
Proof.
  eexists _, _. split; [vm_compute; reflexivity|].
  split; [vm_compute; reflexivity|].
  do 4 (split; [vm_compute; reflexivity|]).
  intros Heq.
  apply (f_equal (λ sc, holdTicks sc 1)) in Heq.
  vm_compute in Heq. discriminate Heq.
Qed.

End HoldRelease.

(** ** Loading, saving and the history *)

Section LoadSaveHistory.

Variable X : Externals.

(** [togglePlaying] and the end of a load leave the chart, the ID allocator
    and the up-to-date flag alone. *)
Lemma togglePlaying_frame e :
  score (togglePlaying X e) = score e ∧
  nextID (togglePlaying X e) = nextID e ∧
  uptoDate (togglePlaying X e) = uptoDate e ∧
  tickSEMap (togglePlaying X e) = tickSEMap e.
Proof. unfold togglePlaying. destruct (playing e); simpl; done. Qed.

Lemma stopIfPlaying_frame e :
  let e' := if playing e then togglePlaying X e else e in
  score e' = score e ∧ nextID e' = nextID e ∧ uptoDate e' = uptoDate e ∧
  tickSEMap e' = tickSEMap e.
Proof. simpl. destruct (playing e); [apply togglePlaying_frame | done]. Qed.

Lemma finishLoad_frame title e :
  score (finishLoad X title e) = score e ∧
  nextID (finishLoad X title e) = nextID e ∧
  uptoDate (finishLoad X title e) = uptoDate e ∧
  tickSEMap (finishLoad X title e) = tickSEMap e.
Proof. done. Qed.

(** C6. A load whose parse or deserialize step throws leaves the ID allocator
    at the value it had before the attempt and the chart as it was. *)
Theorem loadScore_failure_rolls_back (file : string) (e : ScoreEditor) :
  Spec.loadFails X file →
  nextID (loadScore X file e) = nextID e ∧ score (loadScore X file e) = score e.
Proof.
  intros (what & n & Hstep).
  destruct (stopIfPlaying_frame e) as (Hsc & Hid & _).
  unfold Spec.parseStep in Hstep. unfold loadScore. simpl in *.
  destruct (decide (tolower (getFileExtension X file) = SUS_EXTENSION X)).
  - injection Hstep as ->. simpl. done.
  - destruct (decide (tolower (getFileExtension X file) = MMWS_EXTENSION X));
      [|discriminate].
    injection Hstep as ->. simpl. done.
Qed.

(** C7, as the code has it. The chart is marked as modified by every history
    checkpoint, by every undo and redo that restores a snapshot and by the
    import of a SUS file; it is marked as up to date by the load of a native
    project file and by a save that writes the project file. A load that
    fails or finds no known extension, an undo or redo with nothing to
    restore and a dismissed save dialog leave the mark as it was. *)
Theorem uptoDate_after (e : ScoreEditor) :
  (∀ d p c, uptoDate (pushHistory X d p c e) = false) ∧
  uptoDate (undo e) = (if History.hasUndo (history e) then false else uptoDate e) ∧
  uptoDate (redo e) = (if History.hasRedo (history e) then false else uptoDate e) ∧
  (∀ file, uptoDate (loadScore X file e) =
           match Spec.parseStep X file with
           | Some (Loaded _ _) =>
               bool_decide (tolower (getFileExtension X file) ≠ SUS_EXTENSION X)
           | _ => uptoDate e
           end) ∧
  (∀ choice, uptoDate (save X choice e) =
             if nonEmpty (filename (workingData e)) || bool_decide (is_Some choice)
             then true else uptoDate e) ∧
  (∀ file, uptoDate (saveTo file e) = uptoDate e).
Proof.
  split; [|split; [|split; [|split; [|split]]]].
  - intros d p c. unfold pushHistory. simpl. by destruct (uptoDate e).
  - unfold undo, History.hasUndo, History.undo.
    by destruct (History.undoStack (history e)).
  - unfold redo, History.hasRedo, History.redo.
    by destruct (History.redoStack (history e)).
  - intros file. destruct (stopIfPlaying_frame e) as (_ & _ & Hup & _).
    unfold Spec.parseStep, loadScore. simpl in *.
    destruct (decide (tolower (getFileExtension X file) = SUS_EXTENSION X)).
    + destruct (importSUS X file 0); simpl; [|done].
      by rewrite bool_decide_eq_false_2 by auto.
    + destruct (decide (tolower (getFileExtension X file) = MMWS_EXTENSION X)).
      * destruct (deserializeScore X file 0); simpl; [|done].
        by rewrite bool_decide_eq_true_2.
      * done.
  - intros choice. unfold save, saveAs.
    destruct (nonEmpty (filename (workingData e))); simpl; [done|].
    by destruct choice.
  - done.
Qed.

(** C10. An undo or a redo that restores a snapshot empties the selection,
    whatever was selected; with nothing to restore the selection stays. *)
Theorem undo_redo_clear_selection (e : ScoreEditor) :
  selection (undo e) = (if History.hasUndo (history e) then ∅ else selection e) ∧
  selection (redo e) = (if History.hasRedo (history e) then ∅ else selection e).
Proof.
  split.
  - unfold undo, History.hasUndo, History.undo.
    by destruct (History.undoStack (history e)).
  - unfold redo, History.hasRedo, History.redo.
    by destruct (History.redoStack (history e)).
Qed.

End LoadSaveHistory.

Lemma loadScore_failure_rolls_back_witness :
  Spec.loadFails Sample.X0 "broken.sus" ∧
  nextID (loadScore Sample.X0 "broken.sus" Sample.saved) = nextID Sample.saved ∧
  score (loadScore Sample.X0 "broken.sus" Sample.saved) = score Sample.saved.
Proof.
  assert (H : Spec.loadFails Sample.X0 "broken.sus")
    by (eexists _, _; vm_compute; reflexivity).
  split; [exact H|].
  exact (loadScore_failure_rolls_back Sample.X0 "broken.sus" Sample.saved H).
Defined.

(** C7, as the specification has it, fails: a project that is saved and up
    to date is marked as modified right after an undo, after the redo that
    follows and after the import of a SUS file. *)
Lemma undo_redo_import_mark_modified :
  uptoDate Sample.saved = true ∧
  History.hasUndo (history Sample.saved) = true ∧
  uptoDate (undo Sample.saved) = false ∧
  History.hasRedo (history (undo Sample.saved)) = true ∧
  uptoDate (redo (undo Sample.saved)) = false ∧
  Spec.parseStep Sample.X0 "song.sus" = Some (Loaded Sample.loadedScore 1) ∧
  uptoDate (loadScore Sample.X0 "song.sus" Sample.saved) = false.
Proof. repeat split; vm_compute; reflexivity. Qed.

(** ** Seeking in the music track *)

Section Seek.

Variable X : Externals.

(** C8. A seek whose target frame is beyond the length of the track sets the
    at-end flag; a seek to a frame before the length while the flag is set
    clears it; every other seek, also one for which the length cannot be
    queried, leaves the flag as it was. *)
Theorem seekBGM_atEnd_flag (time : Q) (a : Audio.AudioManager) :
  let frame := Spec.seekTarget X time a in
  let a' := Audio.seekBGM X time a in
  (∀ len, Audio.bgmLength a = Some len → (len < frame)%N →
          Audio.bgmAtEnd a' = true) ∧
  (∀ len, Audio.bgmLength a = Some len → Audio.bgmAtEnd a = true →
          (frame < len)%N → Audio.bgmAtEnd a' = false) ∧
  ((∀ len, Audio.bgmLength a = Some len →
           ¬ (len < frame)%N ∧ ¬ (Audio.bgmAtEnd a = true ∧ (frame < len)%N)) →
   Audio.bgmAtEnd a' = Audio.bgmAtEnd a).
Proof.
  intros frame a'. subst frame a'. unfold Audio.seekBGM, Spec.seekTarget. simpl.
  set (frame := toFrame X _).
  split; [|split].
  - intros len -> Hlt. by rewrite decide_True.
  - intros len -> Hend Hlt. rewrite decide_False by lia.
    rewrite Hend, bool_decide_eq_true_2 by done. done.
  - intros Hno. destruct (Audio.bgmLength a) as [len|]; [|done].
    destruct (Hno len eq_refl) as [H1 H2].
    rewrite decide_False by done.
    destruct (Audio.bgmAtEnd a) eqn:Hend; simpl; [|done].
    rewrite bool_decide_eq_false_2; [done|].
    intros Hlt. by apply H2.
Qed.

End Seek.

Lemma seekBGM_atEnd_flag_witness :
  (Audio.bgmLength Sample.audio0 = Some 4800000%N ∧
   (4800000 < Spec.seekTarget Sample.X0 200 Sample.audio0)%N ∧
   Audio.bgmAtEnd (Audio.seekBGM Sample.X0 200 Sample.audio0) = true) ∧
  (Audio.bgmLength Sample.audioEnded = Some 4800000%N ∧
   Audio.bgmAtEnd Sample.audioEnded = true ∧
   (Spec.seekTarget Sample.X0 10 Sample.audioEnded < 4800000)%N ∧
   Audio.bgmAtEnd (Audio.seekBGM Sample.X0 10 Sample.audioEnded) = false).
Proof.
  assert (H1 : (4800000 < Spec.seekTarget Sample.X0 200 Sample.audio0)%N)
    by (vm_compute; reflexivity).
  assert (H2 : (Spec.seekTarget Sample.X0 10 Sample.audioEnded < 4800000)%N)
    by (vm_compute; reflexivity).
  split.
  - split; [reflexivity|]. split; [exact H1|].
    exact (proj1 (seekBGM_atEnd_flag Sample.X0 200 Sample.audio0)
             4800000%N eq_refl H1).
  - split; [reflexivity|]. split; [reflexivity|]. split; [exact H2|].
    exact (proj1 (proj2 (seekBGM_atEnd_flag Sample.X0 10 Sample.audioEnded))
             4800000%N eq_refl eq_refl H2).
Defined.

(** ** The table of the sound-effect scheduler *)

Section Keys.

Lemma append_cons (x : ascii) (a b : string) :
  String x a +:+ b = String x (a +:+ b).
Proof. reflexivity. Qed.

Lemma append_nil (b : string) : "" +:+ b = b.
Proof. reflexivity. Qed.

Lemma append_nil_r (a : string) : a +:+ "" = a.
Proof. induction a as [|x a IH]; [done|]. by rewrite append_cons, IH. Qed.

Lemma append_assoc (a b c : string) : (a +:+ b) +:+ c = a +:+ b +:+ c.
Proof.
  induction a as [|x a IH]; [done|]. by rewrite !append_cons, IH.
Qed.

Lemma digits_app a b : Spec.digits (a +:+ b) = Spec.digits a && Spec.digits b.
Proof.
  induction a as [|x a IH]; [done|].
  rewrite append_cons. simpl. rewrite IH. by rewrite andb_assoc.
Qed.

Lemma pretty_N_char_digit x : Spec.isDigit (pretty_N_char x) = true.
Proof. unfold pretty_N_char. by repeat case_match. Qed.

Lemma pretty_N_go_digits x s :
  ∃ d, Spec.digits d = true ∧ pretty_N_go x s = d +:+ s ∧ ((0 < x)%N → d ≠ "").
Proof.
  revert s. induction (N.lt_wf_0 x) as [x _ IH]; intros s.
  assert (x = 0 ∨ 0 < x)%N as [->|Hx] by lia.
  - exists "". rewrite pretty_N_go_0. split; [done|]. split; [done|]. lia.
  - rewrite pretty_N_go_step by done.
    destruct (IH (x `div` 10)%N ltac:(by apply N.div_lt)
                (String (pretty_N_char (x `mod` 10)) s)) as (d & Hd & -> & _).
    exists (d +:+ String (pretty_N_char (x `mod` 10)) "").
    split; [|split].
    + rewrite digits_app, Hd. simpl. by rewrite pretty_N_char_digit.
    + by rewrite append_assoc.
    + intros _. by destruct d.
Qed.

Lemma pretty_Z_shape (z : Z) :
  ∃ sgn d, (sgn = "" ∨ sgn = "-") ∧ Spec.digits d = true ∧ d ≠ "" ∧
           pretty z = sgn +:+ d.
Proof.
  assert (HN : ∀ p, ∃ d, Spec.digits d = true ∧ d ≠ "" ∧ pretty (N.pos p) = d).
  { intros p. unfold pretty, pretty_N. rewrite decide_False by done.
    destruct (pretty_N_go_digits (N.pos p) "") as (d & Hd & -> & Hne).
    exists d. split; [done|]. split; [apply Hne; lia|].
    apply append_nil_r. }
  destruct z as [|p|p].
  - exists "", "0". by repeat split; auto.
  - destruct (HN p) as (d & Hd & Hne & Hp). exists "", d. by repeat split; auto.
  - destruct (HN p) as (d & Hd & Hne & Hp). exists "-", d.
    repeat split; auto. unfold pretty, pretty_Z. unfold pretty, pretty_positive.
    by rewrite Hp.
Qed.

Lemma digits_dash_inj d1 d2 s1 s2 :
  Spec.digits d1 = true → Spec.digits d2 = true →
  d1 +:+ "-" +:+ s1 = d2 +:+ "-" +:+ s2 → d1 = d2 ∧ s1 = s2.
Proof.
  revert d2. induction d1 as [|c1 d1 IH]; intros [|c2 d2] H1 H2 Heq;
    rewrite ?append_cons, ?append_nil in Heq; simpl in *.
  - by injection Heq as ->.
  - injection Heq as <- _. by vm_compute in H2.
  - injection Heq as -> _. by vm_compute in H1.
  - injection Heq as -> Heq.
    apply andb_prop in H1 as [_ H1]. apply andb_prop in H2 as [_ H2].
    destruct (IH d2 H1 H2 Heq) as [-> ->]. done.
Qed.

Lemma seKey_inj t1 s1 t2 s2 : seKey t1 s1 = seKey t2 s2 → t1 = t2 ∧ s1 = s2.
Proof.
  unfold seKey.
  destruct (pretty_Z_shape t1) as (g1 & d1 & Hg1 & Hd1 & Hn1 & Hp1).
  destruct (pretty_Z_shape t2) as (g2 & d2 & Hg2 & Hd2 & Hn2 & Hp2).
  rewrite Hp1, Hp2, !append_assoc. intros Heq.
  assert (g1 = g2 ∧ d1 = d2 ∧ s1 = s2) as (-> & -> & ->).
  { destruct Hg1 as [-> | ->], Hg2 as [-> | ->];
      rewrite ?append_cons, ?append_nil in Heq.
    - destruct (digits_dash_inj _ _ _ _ Hd1 Hd2 Heq) as [-> ->]. done.
    - destruct d1 as [|c d1]; [done|].
      rewrite ?append_cons in Heq. injection Heq as -> _.
      by vm_compute in Hd1.
    - destruct d2 as [|c d2]; [done|].
      rewrite ?append_cons in Heq. injection Heq as <- _.
      by vm_compute in Hd2.
    - injection Heq as Heq.
      destruct (digits_dash_inj _ _ _ _ Hd1 Hd2 Heq) as [-> ->]. done. }
  split; [|done]. apply (inj pretty). by rewrite Hp1, Hp2.
Qed.

End Keys.

Section Scheduler.

Variable X : Externals.

Lemma sounds_playSound key se s t a :
  Audio.sounds (Audio.playSound key se s t a) = Audio.sounds a.
Proof. unfold Audio.playSound. by case_decide. Qed.

Lemma musicInitialized_playSound key se s t a :
  Audio.musicInitialized (Audio.playSound key se s t a) = Audio.musicInitialized a.
Proof. unfold Audio.playSound. by case_decide. Qed.

Lemma firings_playSound_None k se s t a :
  Spec.firings k (Audio.playSound None se s t a) = Spec.firings k a.
Proof. unfold Audio.playSound, Spec.firings. by case_decide. Qed.

Lemma firings_playSound_Some k k' se s t a :
  Spec.firings k (Audio.playSound (Some k') se s t a) =
  (Spec.firings k a
   + Spec.bump (bool_decide (k' = k) && bool_decide (se ∈ Audio.sounds a)))%nat.
Proof.
  unfold Audio.playSound, Spec.firings.
  case_decide as Hin.
  - rewrite (bool_decide_eq_true_2 _ Hin), andb_true_r. simpl.
    case_bool_decide; simpl; lia.
  - rewrite (bool_decide_eq_false_2 _ Hin), andb_false_r. simpl. lia.
Qed.

(** One note of the loop. *)
Lemma noteSE_spec e m a n :
  (noteType n = Hold → is_Some (holdEndTick (score e) (ID n))) →
  ∃ a',
    noteSE X e (m, a) n =
      Some (if Spec.firesIn X e n && bool_decide (m !! Spec.keyOf X e n = None)
            then <[Spec.keyOf X e n := tick n]> m else m, a') ∧
    Spec.sameTransport a a' ∧
    ∀ k, Spec.firings k a' =
         (Spec.firings k a
          + Spec.bump (Spec.firesIn X e n && bool_decide (m !! Spec.keyOf X e n = None)
                  && bool_decide (Spec.keyOf X e n = k)
                  && bool_decide (getNoteSE X n (score e) ∈ Audio.sounds a)))%nat.
Proof.
  intros Hhold.
  unfold noteSE, Spec.firesIn, Spec.crosses, Spec.fireInstant, Spec.noteTime, Spec.keyOf.
  cbv zeta.
  set (nt := accumulateDuration X (tick n) Constants.TICKS_PER_BEAT (tempoChanges (score e))).
  set (se := getNoteSE X n (score e)).
  set (key := seKey (tick n) se).
  generalize (Time.geb (nt - audioLookAhead X) (songPosLastFrame e)).
  generalize (Time.ltb (nt - audioLookAhead X) (songPos e)).
  generalize (Time.eqb (time e) (playStartTime e)).
  generalize (Time.geb nt (time e)).
  generalize (Time.ltb (nt - audioLookAhead X) (time e)).
  generalize (nonEmpty se).
  intros c6 c5 c4 c3 c2 c1.
  destruct (m !! key) eqn:Hm;
    destruct c1, c2, c3, c4, c5, c6; simpl;
    rewrite ?Hm; simpl;
    try (case_decide as Hty;
          [destruct (Hhold Hty) as [et ->]; simpl; try case_match|]);
    (eexists; split; [reflexivity|];
     split; [by unfold Spec.sameTransport;
                rewrite ?sounds_playSound, ?musicInitialized_playSound|]);
    intros k; rewrite ?firings_playSound_None, ?firings_playSound_Some;
    simpl; rewrite ?andb_false_r; simpl; lia.
Qed.


(** The whole loop, for the table entry [k]: all notes with that entry fire
    alike ([F]) with the same effect ([se]). *)
Lemma noteSELoop_spec e k F se l :
  (∀ n, n ∈ l → noteType n = Hold → is_Some (holdEndTick (score e) (ID n))) →
  (∀ n, n ∈ l → Spec.keyOf X e n = k →
        Spec.firesIn X e n = F ∧ getNoteSE X n (score e) = se) →
  ∀ m a, ∃ m' a',
    noteSELoop X e l (m, a) = Some (m', a') ∧
    Spec.sameTransport a a' ∧
    (is_Some (m' !! k) ↔ is_Some (m !! k) ∨ F && Spec.present X e k l = true) ∧
    Spec.firings k a' =
      (Spec.firings k a
       + Spec.bump (F && Spec.present X e k l && bool_decide (m !! k = None)
               && bool_decide (se ∈ Audio.sounds a)))%nat.
Proof.
  induction l as [|n l IH]; intros Hwf Huni m a.
  - exists m, a. split; [done|]. split; [done|]. simpl.
    rewrite !andb_false_r. simpl. split; [(intuition (discriminate || eauto)) | lia].
  - destruct (noteSE_spec e m a n) as (a1 & Hstep & [Hi1 Hs1] & Hf1).
    { apply Hwf. left. }
    destruct (IH (λ n' Hn', Hwf n' (list_elem_of_further _ _ _ Hn'))
                 (λ n' Hn', Huni n' (list_elem_of_further _ _ _ Hn'))
                 (if Spec.firesIn X e n && bool_decide (m !! Spec.keyOf X e n = None)
                  then <[Spec.keyOf X e n := tick n]> m else m) a1)
      as (m' & a' & Hloop & [Hi' Hs'] & Hm' & Hf').
    exists m', a'. simpl. rewrite Hstep. simpl. split; [exact Hloop|].
    split; [split; congruence|].
    rewrite Hf', Hf1, Hs1, Hm'. clear Hf' Hf1 Hm' Hloop Hstep.
    destruct (decide (Spec.keyOf X e n = k)) as [Hk|Hk].
    + destruct (Huni n ltac:(left) Hk) as [-> ->]. rewrite Hk.
      rewrite (bool_decide_eq_true_2 (k = k)) by done. simpl.
      destruct F; simpl; [|split; [(intuition (discriminate || eauto)) | lia]].
      destruct (m !! k) eqn:Hm; simpl.
      * rewrite Hm. simpl. rewrite andb_false_r. simpl.
        split; [(intuition (discriminate || eauto)) | lia].
      * rewrite lookup_insert_eq. simpl. rewrite andb_false_r. simpl.
        split; [(intuition (discriminate || eauto)) | lia].
    + rewrite (bool_decide_eq_false_2 (Spec.keyOf X e n = k)) by done. simpl.
      rewrite !andb_false_r. simpl.
      assert ((if Spec.firesIn X e n && bool_decide (m !! Spec.keyOf X e n = None)
               then <[Spec.keyOf X e n := tick n]> m else m) !! k = m !! k) as ->.
      { case_match; [by rewrite lookup_insert_ne | done]. }
      split; [done | lia].
Qed.


Lemma firesIn_key e n n' :
  Spec.keyOf X e n' = Spec.keyOf X e n →
  Spec.firesIn X e n' = Spec.firesIn X e n ∧
  getNoteSE X n' (score e) = getNoteSE X n (score e).
Proof.
  intros [Ht Hse]%seKey_inj. split; [|exact Hse].
  unfold Spec.firesIn, Spec.crosses, Spec.fireInstant, Spec.noteTime.
  by rewrite Ht, Hse.
Qed.

Lemma sameRun_refl e : Spec.sameRun e e.
Proof. by repeat split. Qed.

Lemma sameRun_trans e1 e2 e3 : Spec.sameRun e1 e2 → Spec.sameRun e2 e3 → Spec.sameRun e1 e3.
Proof.
  intros (?&?&?&?&?&?) (?&?&?&?&?&?). repeat split; congruence.
Qed.

(** One frame of playback, for the table entry of a note of the chart. *)
Lemma updateNoteSE_frame e f i n :
  playing e = true → Spec.holdsComplete (score e) →
  notes (score e) !! i = Some n →
  ∃ e', updateNoteSE X (hostFrame f e) = Some e' ∧ Spec.sameRun e e' ∧
        songPos e' = Spec.framePos e f ∧
        Spec.firings (Spec.keyOf X e n) (audio e') =
          (Spec.firings (Spec.keyOf X e n) (audio e)
           + Spec.bump ((Spec.crosses X e n (songPos e) (Spec.framePos e f)
                    || Spec.startsInside X e n f)
                   && bool_decide (getNoteSE X n (score e) ∈ Audio.sounds (audio e))))%nat.
Proof.
  intros Hplay Hwf Hn.
  unfold updateNoteSE, updateNoteSEIn. simpl. rewrite Hplay. simpl.
  set (e1 := withSongPos _ _).
  set (order := (map_to_list (notes (score e))).*2).
  assert (Hin : n ∈ order).
  { subst order. apply list_elem_of_fmap. exists (i, n). split; [done|].
    by apply elem_of_map_to_list. }
  destruct (noteSELoop_spec e1 (Spec.keyOf X e n) (Spec.firesIn X e1 n)
              (getNoteSE X n (score e)) order) with (m := (∅ : gmap string Z))
              (a := audio (hostFrame f e))
    as (m' & a' & Hloop & [Hi Hs] & _ & Hf).
  { intros n' [[i' n''] [-> Hn']]%list_elem_of_fmap Hty.
    apply elem_of_map_to_list in Hn'. by apply (Hwf i'). }
  { intros n' _ Hk. by apply (firesIn_key e1). }
  simpl in Hloop, Hi, Hs, Hf. rewrite Hloop. simpl. eexists. split; [reflexivity|].
  split; [unfold Spec.sameRun; simpl; by repeat split|].
  split; [unfold Spec.framePos; by rewrite Hplay|].
  simpl. rewrite Hf. f_equal. f_equal.
  assert (Spec.present X e1 (Spec.keyOf X e n) order = true) as ->.
  { apply existsb_exists. exists n. split; [by apply list_elem_of_In|].
    by apply bool_decide_eq_true_2. }
  rewrite lookup_empty, (bool_decide_eq_true_2 (None = None)) by done.
  rewrite !andb_true_r. f_equal.
  unfold Spec.firesIn, Spec.startsInside, Spec.framePos. subst e1. simpl.
  by rewrite Hplay.
Qed.

Lemma sameRun_spec e e' n p fs :
  Spec.sameRun e e' →
  Spec.keyOf X e' n = Spec.keyOf X e n ∧
  Spec.crossings X e' n p fs = Spec.crossings X e n p fs ∧
  Spec.startFirings X e' n p fs = Spec.startFirings X e n p fs.
Proof.
  intros (Hsc & Hpl & Hst & Hwd & Hmi & Hso).
  split; [by unfold Spec.keyOf; rewrite Hsc|].
  assert (Hpos : ∀ f, Spec.framePos e' f = Spec.framePos e f).
  { intros f. unfold Spec.framePos. by rewrite Hpl, Hwd, Hmi. }
  assert (Hcr : ∀ a b, Spec.crosses X e' n a b = Spec.crosses X e n a b).
  { intros a b. unfold Spec.crosses, Spec.fireInstant, Spec.noteTime. by rewrite Hsc. }
  assert (Hsi : ∀ f, Spec.startsInside X e' n f = Spec.startsInside X e n f).
  { intros f. unfold Spec.startsInside, Spec.fireInstant, Spec.noteTime.
    by rewrite Hsc, Hst. }
  revert p. induction fs as [|f fs IH]; intros p; simpl; [done|].
  destruct (IH (Spec.framePos e f)) as [IH1 IH2].
  by rewrite !Hpos, !Hcr, !Hsi, IH1, IH2.
Qed.

(** A run of playback triggers the effect of a note once for every frame
    whose window holds its fire instant and once for every other frame that
    is taken for the first of the run with the note inside its lookahead. *)
Lemma runFrames_firings fs e i n :
  playing e = true → Spec.holdsComplete (score e) →
  notes (score e) !! i = Some n →
  getNoteSE X n (score e) ∈ Audio.sounds (audio e) →
  ∃ e', runFrames X fs e = Some e' ∧ Spec.sameRun e e' ∧
        Spec.firings (Spec.keyOf X e n) (audio e') =
          (Spec.firings (Spec.keyOf X e n) (audio e)
           + Spec.crossings X e n (songPos e) fs
           + Spec.startFirings X e n (songPos e) fs)%nat.
Proof.
  revert e. induction fs as [|f fs IH]; intros e Hplay Hwf Hn Hse.
  - exists e. split; [done|]. split; [apply sameRun_refl|]. simpl. lia.
  - destruct (updateNoteSE_frame e f i n Hplay Hwf Hn)
      as (e1 & Hstep & Hsame & Hpos & Hf1).
    pose proof Hsame as (Hsc & Hpl & Hst & Hwd & Hmi & Hso).
    destruct (IH e1) as (e' & Hrun & Hsame' & Hf').
    { congruence. } { by rewrite Hsc. } { by rewrite Hsc. } { by rewrite Hsc, Hso. }
    exists e'. simpl. rewrite Hstep. simpl. split; [exact Hrun|].
    split; [by eapply sameRun_trans|].
    destruct (sameRun_spec e e1 n (songPos e1) fs Hsame) as (Hk & Hc & Hs).
    rewrite Hk, Hc, Hs, Hf1, Hpos in Hf'. rewrite Hf'.
    rewrite (bool_decide_eq_true_2 _ Hse), andb_true_r.
    destruct (Spec.crosses X e n (songPos e) (Spec.framePos e f)),
             (Spec.startsInside X e n f); simpl; lia.
Qed.

End Scheduler.

Section Playback.

Variable X : Externals.

(** The loop reads the chart, the clock and the two positions of the editor
    and nothing else: the table of the previous frame does not reach it. *)
Lemma noteSELoop_table_blind order p q e m1 m2 st :
  noteSELoop X (withSongPos p (withSongPosLastFrame q (withTickSEMap m1 e))) order st =
  noteSELoop X (withSongPos p (withSongPosLastFrame q (withTickSEMap m2 e))) order st.
Proof.
  revert st. induction order as [|n order IH]; intros st; [done|].
  simpl.
  change (noteSE X (withSongPos p (withSongPosLastFrame q (withTickSEMap m1 e))) st n)
    with (noteSE X (withSongPos p (withSongPosLastFrame q (withTickSEMap m2 e))) st n).
  destruct (noteSE X _ st n) as [st'|]; simpl; [apply IH | done].
Qed.

(** C3, as the code has it. The table is emptied at the start of every pass
    of [updateNoteSE] that is made while playing, so that a frame never sees
    what the frame before it entered: its result is the same whatever the
    table held. It is emptied at no other time: a pass made while stopped
    keeps it, and so does [togglePlaying], the transition from stopped to
    playing included. *)
Theorem tickSEMap_emptied_every_frame (order : list Note) (e : ScoreEditor)
    (m : gmap string Z) :
  tickSEMap (togglePlaying X e) = tickSEMap e ∧
  (if playing e
   then (updateNoteSEIn X order (withTickSEMap m e)
         = updateNoteSEIn X order (withTickSEMap ∅ e))
   else (tickSEMap <$> updateNoteSEIn X order (withTickSEMap m e) = Some m)).
Proof.
  split; [apply togglePlaying_frame|].
  destruct (playing e) eqn:Hplay.
  - unfold updateNoteSEIn. simpl. rewrite Hplay. simpl.
    rewrite (noteSELoop_table_blind order _ _ e m ∅).
    by destruct (noteSELoop X _ order (∅, audio e)).
  - unfold updateNoteSEIn. simpl. by rewrite Hplay.
Qed.

(** C2, as the code has it. In a run of playback whose frame windows hold
    the fire instant of a note exactly once, and in which no other frame is
    taken for the first of the run while the note is inside its lookahead,
    the effect of the note is triggered exactly once, however many frames the
    run has. *)
Theorem effect_fires_once (fs : list Frame) (e : ScoreEditor) (i : Z) (n : Note) :
  playing e = true →
  Spec.holdsComplete (score e) →
  notes (score e) !! i = Some n →
  getNoteSE X n (score e) ∈ Audio.sounds (audio e) →
  Spec.crossings X e n (songPos e) fs = 1%nat →
  Spec.startFirings X e n (songPos e) fs = 0%nat →
  ∃ e', runFrames X fs e = Some e' ∧
        Spec.firings (Spec.keyOf X e n) (audio e')
        = S (Spec.firings (Spec.keyOf X e n) (audio e)).
Proof.
  intros Hplay Hwf Hn Hse Hc Hs.
  destruct (runFrames_firings X fs e i n Hplay Hwf Hn Hse) as (e' & Hrun & _ & Hf).
  exists e'. split; [exact Hrun|]. rewrite Hf, Hc, Hs. lia.
Qed.

End Playback.

Lemma tapScore_holdsComplete : Spec.holdsComplete Sample.tapScore.
Proof.
  intros i n Hn Hty. simpl in Hn.
  apply lookup_singleton_Some in Hn as [_ <-]. discriminate Hty.
Qed.

Lemma effect_fires_once_witness :
  playing Sample.startedEarly = true ∧
  Spec.crossings Sample.X0 Sample.startedEarly (Sample.tapNote 7 9592)
    (songPos Sample.startedEarly) Sample.frames = 1%nat ∧
  Spec.startFirings Sample.X0 Sample.startedEarly (Sample.tapNote 7 9592)
    (songPos Sample.startedEarly) Sample.frames = 0%nat ∧
  ∃ e', runFrames Sample.X0 Sample.frames Sample.startedEarly = Some e' ∧
        Spec.firings (Spec.keyOf Sample.X0 Sample.startedEarly (Sample.tapNote 7 9592))
          (audio e')
        = S (Spec.firings
               (Spec.keyOf Sample.X0 Sample.startedEarly (Sample.tapNote 7 9592))
               (audio Sample.startedEarly)).
Proof.
  split; [reflexivity|]. split; [vm_compute; reflexivity|].
  split; [vm_compute; reflexivity|].
  apply (effect_fires_once Sample.X0 Sample.frames Sample.startedEarly 7
           (Sample.tapNote 7 9592)).
  - reflexivity.
  - exact tapScore_holdsComplete.
  - reflexivity.
  - apply (bool_decide_unpack _). vm_compute. exact I.
  - vm_compute. reflexivity.
  - vm_compute. reflexivity.
Defined.

(** C2, as the specification has it, fails. Playback starts at 9.95 s with a
    tap whose fire instant is 9.9417 s and whose nominal time is 9.9917 s. In
    the first frame the transport reports 9.94 s: the window is empty, the
    frame is taken for the first of the run and the effect is played. In the
    second frame the transport reports 9.96 s: the window from 9.94 s holds
    the fire instant and the effect is played again, as the table was
    emptied in between. The positions cross the fire instant once and the
    effect is triggered twice. *)
Lemma effect_fires_twice_on_one_crossing :
  playing Sample.started = true ∧
  notes (score Sample.started) !! 7 = Some (Sample.tapNote 7 9592) ∧
  Spec.crossings Sample.X0 Sample.started (Sample.tapNote 7 9592)
    (songPos Sample.started) [Sample.frame1; Sample.frame2] = 1%nat ∧
  Spec.startFirings Sample.X0 Sample.started (Sample.tapNote 7 9592)
    (songPos Sample.started) [Sample.frame1; Sample.frame2] = 1%nat ∧
  Spec.firings "9592-perfect" (audio Sample.started) = 0%nat ∧
  ∃ e', runFrames Sample.X0 [Sample.frame1; Sample.frame2] Sample.started = Some e' ∧
        Spec.keyOf Sample.X0 Sample.started (Sample.tapNote 7 9592) = "9592-perfect" ∧
        Spec.firings "9592-perfect" (audio e') = 2%nat.
Proof.
  split; [reflexivity|]. split; [reflexivity|].
  split; [vm_compute; reflexivity|]. split; [vm_compute; reflexivity|].
  split; [reflexivity|].
  eexists. split; [vm_compute; reflexivity|].
  split; vm_compute; reflexivity.
Qed.

(** C3, as the specification has it, fails. The first frame of the run
    enters the tap in the table; after the next frame of the same run, in
    which nothing fires, the table is empty. And a table that holds an entry
    when playback is started still holds it afterwards. *)
Lemma table_does_not_outlive_a_frame :
  ∃ e1 e2,
    updateNoteSE Sample.X0 (hostFrame Sample.frame1 Sample.started) = Some e1 ∧
    playing e1 = true ∧
    tickSEMap e1 !! "9592-perfect" = Some 9592 ∧
    updateNoteSE Sample.X0 (hostFrame Sample.frameQuiet e1) = Some e2 ∧
    playing e2 = true ∧
    tickSEMap e2 !! "9592-perfect" = None ∧
    playing (withPlaying false e1) = false ∧
    playing (togglePlaying Sample.X0 (withPlaying false e1)) = true ∧
    tickSEMap (togglePlaying Sample.X0 (withPlaying false e1)) !! "9592-perfect"
    = Some 9592.
Proof.
  eexists _, _. split; [vm_compute; reflexivity|].
  split; [reflexivity|]. split; [vm_compute; reflexivity|].
  split; [vm_compute; reflexivity|].
  repeat split; vm_compute; reflexivity.
Qed.

(** ** More on snapping and the cursor *)

Section SnappingMore.

Lemma roundTickDown_eq tick div i :
  0 ≤ tick → interval div = Some i → 1 ≤ i →
  roundTickDown tick div = Some (i * (tick `div` i)).
Proof.
  intros Ht Hi Hi1. unfold roundTickDown. rewrite Hi. simpl.
  rewrite CInt_rem_Some by lia. simpl.
  rewrite Z.rem_mod_nonneg by lia. f_equal.
  pose proof (Z.div_mod tick i ltac:(lia)).
  pose proof (Z.mod_pos_bound tick i ltac:(lia)).
  assert (0 ≤ tick `div` i) by (apply Z.div_pos; lia).
  nia.
Qed.

Lemma snapTick_eq tick div i :
  0 ≤ tick → interval div = Some i → 1 ≤ i →
  snapTick tick div =
    Some (if decide (tick `mod` i >= i `div` 2)
          then tick - tick `mod` i + i `div` 2 * 2
          else tick - tick `mod` i).
Proof.
  intros Ht Hi Hi1. unfold snapTick. rewrite Hi. simpl.
  rewrite CInt_rem_Some by lia. simpl.
  rewrite Z.rem_mod_nonneg by lia.
  rewrite (Z.quot_div_nonneg i 2) by lia. f_equal.
  pose proof (Z.mod_pos_bound tick i ltac:(lia)).
  pose proof (Z.mod_le tick i ltac:(lia) ltac:(lia)).
  assert (0 ≤ i `div` 2) by (apply Z.div_pos; lia).
  case_decide; lia.
Qed.

(** X1. [roundTickDown] returns the grid line at or below the tick. *)
Theorem roundTickDown_greatest_multiple (tick div : Z) :
  0 ≤ tick → Spec.accepted div →
  ∃ i r, interval div = Some i ∧ roundTickDown tick div = Some r ∧
         (i | r) ∧ r ≤ tick < r + i.
Proof.
  intros Ht Hd. destruct (interval_accepted div Hd) as (i & Hi & _ & Hi1).
  exists i, (i * (tick `div` i)). split; [exact Hi|].
  split; [apply roundTickDown_eq; [lia | exact Hi | lia]|].
  split; [exists (tick `div` i); ring|].
  pose proof (Z.div_mod tick i ltac:(lia)).
  pose proof (Z.mod_pos_bound tick i ltac:(lia)). lia.
Qed.


(** X3. Snapping a snapped tick changes nothing, for every accepted division
    (also where the interval is odd). *)
Theorem snapTick_idempotent (tick div r : Z) :
  0 ≤ tick → Spec.accepted div →
  snapTick tick div = Some r → snapTick r div = Some r.
Proof.
  intros Ht Hd. destruct (interval_accepted div Hd) as (i & Hi & _ & Hi1).
  rewrite (snapTick_eq tick div i) by (lia || exact Hi).
  pose proof (Z.div_mod tick i ltac:(lia)) as Hdm.
  pose proof (Z.mod_pos_bound tick i ltac:(lia)) as Hr.
  pose proof (Z.div_mod i 2 ltac:(lia)) as Hdi.
  pose proof (Z.mod_pos_bound i 2 ltac:(lia)) as Hri.
  assert (Hq : 0 ≤ tick `div` i) by (apply Z.div_pos; lia).
  assert (Hh : 0 ≤ i `div` 2) by (apply Z.div_pos; lia).
  remember (tick `div` i) as q eqn:Eq. remember (tick `mod` i) as m eqn:Em.
  remember (i `div` 2) as h eqn:Eh. remember (i `mod` 2) as b eqn:Eb.
  intros Hsnap.
  assert (Hcases : (r = i * q ∧ r `mod` i = 0) ∨ (r = i * (q + 1) ∧ r `mod` i = 0)
                   ∨ (r = i * q + (i - 1) ∧ r `mod` i = i - 1 ∧ i - 1 >= h ∧ i - 1 = h * 2)).
  { case_decide; injection Hsnap as <-.
    - destruct (decide (b = 0)) as [Hz|Hz].
      + right. left. split; [lia|].
        replace (tick - m + h * 2) with (i * (q + 1)) by lia.
        rewrite Z.mul_comm. apply Z.mod_mul. lia.
      + right. right. assert (h * 2 = i - 1) by lia.
        split; [lia|]. split; [|lia].
        replace (tick - m + h * 2) with ((i - 1) + q * i) by lia.
        rewrite Z.mod_add by lia. apply Z.mod_small. lia.
    - left. split; [lia|].
      replace (tick - m) with (q * i) by lia. apply Z.mod_mul. lia. }
  assert (0 ≤ r) by (destruct Hcases as [[-> _]|[[-> _]|[-> _]]]; nia).
  rewrite (snapTick_eq r div i) by (lia || exact Hi). rewrite <- Eh.
  destruct Hcases as [[_ Hm]|[[_ Hm]|(Hr' & Hm & Hge & Hh2)]]; rewrite Hm.
  - destruct (decide (0 >= h)); f_equal; lia.
  - destruct (decide (0 >= h)); f_equal; lia.
  - rewrite decide_True by lia. f_equal. lia.
Qed.


End SnappingMore.

Lemma roundTickDown_greatest_multiple_witness :
  0 ≤ 250 ∧ Spec.accepted 16 ∧
  ∃ i r, interval 16 = Some i ∧ roundTickDown 250 16 = Some r ∧
         (i | r) ∧ r ≤ 250 < r + i.
Proof.
  assert (H1 : 0 ≤ 250) by lia.
  assert (H2 : Spec.accepted 16) by (unfold Spec.accepted; lia).
  split; [exact H1|]. split; [exact H2|].
  exact (roundTickDown_greatest_multiple 250 16 H1 H2).
Defined.


Lemma snapTick_idempotent_witness :
  0 ≤ 8 ∧ Spec.accepted 128 ∧ snapTick 8 128 = Some 14 ∧
  snapTick 14 128 = Some 14.
Proof.
  assert (H1 : 0 ≤ 8) by lia.
  assert (H2 : Spec.accepted 128) by (unfold Spec.accepted; lia).
  split; [exact H1|]. split; [exact H2|]. split; [reflexivity|].
  exact (snapTick_idempotent 8 128 14 H1 H2 eq_refl).
Defined.


Section Cursor.




(** X8. [laneFromCenterPos] places a note of a width that fits the lanes so
    that all of it lies within them, and centred on the lane where that is
    possible. *)
Theorem laneFromCenterPos_within (MIN_LANE MAX_LANE lane width : Z) :
  1 ≤ width ≤ MAX_LANE - MIN_LANE + 1 →
  ∃ l, laneFromCenterPos MIN_LANE MAX_LANE lane width = Some l ∧
       MIN_LANE ≤ l ∧ l + width - 1 ≤ MAX_LANE ∧
       (MIN_LANE ≤ lane - Z.quot width 2 ≤ MAX_LANE - width + 1 →
        l = lane - Z.quot width 2).
Proof.
  intros Hw. unfold laneFromCenterPos, clamp.
  rewrite decide_False by lia. eexists. split; [reflexivity|].
  repeat case_decide; lia.
Qed.

End Cursor.




Lemma laneFromCenterPos_within_witness :
  1 ≤ 3 ≤ 11 - 0 + 1 ∧
  ∃ l, laneFromCenterPos 0 11 11 3 = Some l ∧ 0 ≤ l ∧ l + 3 - 1 ≤ 11 ∧
       (0 ≤ 11 - Z.quot 3 2 ≤ 11 - 3 + 1 → l = 11 - Z.quot 3 2).
Proof.
  assert (H : 1 ≤ 3 ≤ 11 - 0 + 1) by lia.
  split; [exact H|].
  exact (laneFromCenterPos_within 0 11 11 3 H).
Defined.

(** ** More on loading and saving *)

Section LoadSaveMore.

Variable X : Externals.

Lemma withNextID_back n e :
  withNextID (nextID e) (withNextID n (resetNextID e)) = e.
Proof. by destruct e. Qed.

(** X9. A load whose parse or deserialize step throws changes nothing in the
    editor but that it stops playback: selection, history, working data and
    flags are those of before. *)
Theorem loadScore_failure_only_stops (file : string) (e : ScoreEditor) :
  Spec.loadFails X file →
  loadScore X file e = (if playing e then togglePlaying X e else e).
Proof.
  intros (what & n & Hstep).
  unfold Spec.parseStep in Hstep. unfold loadScore.
  generalize (if playing e then togglePlaying X e else e). intros e0.
  cbv zeta. change (nextID (resetNextID e0)) with 0.
  destruct (decide (tolower (getFileExtension X file) = SUS_EXTENSION X)).
  - injection Hstep as ->. apply withNextID_back.
  - destruct (decide (tolower (getFileExtension X file) = MMWS_EXTENSION X));
      [|discriminate].
    injection Hstep as ->. apply withNextID_back.
Qed.

(** What the end of a load and a save to the working file leave behind. *)
Lemma finishLoad_more t e :
  filename (workingData (finishLoad X t e)) = filename (workingData e) ∧
  written (finishLoad X t e) = written e ∧
  selection (finishLoad X t e) = ∅ ∧
  hasEdit (finishLoad X t e) = false ∧
  windowTitle (finishLoad X t e) = t ∧
  wTitle (workingData (finishLoad X t e)) = title (metadata (score e)).
Proof. done. Qed.

Lemma writeScoreMetadata_read t e :
  let sc' := score (writeScoreMetadata (finishLoad X t e)) in
  notes sc' = notes (score e) ∧ holdNotes sc' = holdNotes (score e) ∧
  tempoChanges sc' = tempoChanges (score e) ∧
  timeSignatures sc' = timeSignatures (score e) ∧
  title (metadata sc') = title (metadata (score e)) ∧
  artist (metadata sc') = artist (metadata (score e)) ∧
  author (metadata sc') = author (metadata (score e)) ∧
  musicFile (metadata sc') = musicFile (metadata (score e)) ∧
  musicOffset (metadata sc') = musicOffset (metadata (score e)).
Proof. done. Qed.

Lemma save_named choice e :
  nonEmpty (filename (workingData e)) = true →
  written (save X choice e)
  = (filename (workingData e), score (writeScoreMetadata e)) :: written e ∧
  uptoDate (save X choice e) = true.
Proof. intros Hne. unfold save. rewrite Hne. done. Qed.

Lemma saveAs_chosen chosen e :
  written (saveAs X (Some chosen) e)
  = (chosen, score (writeScoreMetadata e)) :: written e ∧
  filename (workingData (saveAs X (Some chosen) e)) = chosen ∧
  uptoDate (saveAs X (Some chosen) e) = true.
Proof. done. Qed.

(** X10. After the load of a native project file, [save] writes the chart
    that was read back to that file, without a dialog, and leaves the
    project up to date. *)
Theorem save_after_load_writes_back (file : string) (e : ScoreEditor)
    (sc : Score) (n : Z) (choice : option string) :
  tolower (getFileExtension X file) ≠ SUS_EXTENSION X →
  tolower (getFileExtension X file) = MMWS_EXTENSION X →
  deserializeScore X file 0 = Loaded sc n →
  nonEmpty file = true →
  let e1 := loadScore X file e in
  let e2 := save X choice e1 in
  score e1 = sc ∧ filename (workingData e1) = file ∧
  ∃ sc', written e2 = (file, sc') :: written e1 ∧
         notes sc' = notes sc ∧ holdNotes sc' = holdNotes sc ∧
         tempoChanges sc' = tempoChanges sc ∧
         timeSignatures sc' = timeSignatures sc ∧
         title (metadata sc') = title (metadata sc) ∧
         artist (metadata sc') = artist (metadata sc) ∧
         author (metadata sc') = author (metadata sc) ∧
         musicFile (metadata sc') = musicFile (metadata sc) ∧
         musicOffset (metadata sc') = musicOffset (metadata sc) ∧
         uptoDate e2 = true.
Proof.
  intros Hsus Hmmws Hload Hne e1 e2. subst e2 e1.
  unfold loadScore. cbv zeta.
  generalize (if playing e then togglePlaying X e else e). intros e0.
  change (nextID (resetNextID e0)) with 0.
  rewrite decide_False by done. rewrite decide_True by done. rewrite Hload.
  set (ep := withWorkingData _ _).
  assert (Hsc : score ep = sc) by done.
  assert (Hf : filename (workingData ep) = file) by done.
  destruct (finishLoad_more (getFilenameWithoutExtension X file) ep)
    as (Hfile & _).
  destruct (save_named choice (finishLoad X (getFilenameWithoutExtension X file) ep))
    as [Hw Hup]; [by rewrite Hfile, Hf|].
  split; [done|]. split; [by rewrite Hfile|].
  eexists. split; [by rewrite Hw, Hfile, Hf|].
  pose proof (writeScoreMetadata_read (getFilenameWithoutExtension X file) ep) as Hmd.
  rewrite Hsc in Hmd. destruct Hmd as (?&?&?&?&?&?&?&?&?).
  by repeat split.
Qed.

(** X11. After the import of a SUS file the editor has no working file:
    [save] writes nothing unless a file is chosen in the dialog, and then it
    writes to the chosen file. *)
Theorem save_after_import_asks (file : string) (e : ScoreEditor)
    (sc : Score) (n : Z) :
  tolower (getFileExtension X file) = SUS_EXTENSION X →
  importSUS X file 0 = Loaded sc n →
  let e1 := loadScore X file e in
  filename (workingData e1) = "" ∧
  save X None e1 = e1 ∧
  ∀ chosen, ∃ sc', written (save X (Some chosen) e1) = (chosen, sc') :: written e1 ∧
                   notes sc' = notes sc ∧
                   filename (workingData (save X (Some chosen) e1)) = chosen.
Proof.
  intros Hsus Hload e1. subst e1.
  unfold loadScore. cbv zeta.
  generalize (if playing e then togglePlaying X e else e). intros e0.
  change (nextID (resetNextID e0)) with 0.
  rewrite decide_True by done. rewrite Hload.
  set (ep := withUptoDate false _).
  assert (Hsc : score ep = sc) by done.
  destruct (finishLoad_more (windowUntitled X) ep) as (Hfile & _).
  assert (Hf : filename (workingData (finishLoad X (windowUntitled X) ep)) = "")
    by (rewrite Hfile; done).
  split; [exact Hf|].
  split; [unfold save; rewrite Hf; done|].
  intros chosen. unfold save. rewrite Hf. simpl nonEmpty. cbv iota.
  destruct (saveAs_chosen chosen (finishLoad X (windowUntitled X) ep)) as (Hw & Hn & _).
  eexists. split; [exact Hw|]. split; [|exact Hn].
  pose proof (writeScoreMetadata_read (windowUntitled X) ep) as Hmd.
  rewrite Hsc in Hmd. by destruct Hmd as (?&_).
Qed.

(** X12. Opening a file whose extension is neither that of a SUS file nor
    that of a project keeps the chart, but drops the selection, takes the
    working title back from the chart and names the window as untitled. *)
Theorem loadScore_unknown_extension (file : string) (e : ScoreEditor) :
  Spec.parseStep X file = None →
  let e1 := loadScore X file e in
  score e1 = score e ∧ uptoDate e1 = uptoDate e ∧
  selection e1 = ∅ ∧ hasEdit e1 = false ∧
  wTitle (workingData e1) = title (metadata (score e)) ∧
  windowTitle e1 = windowUntitled X.
Proof.
  intros Hstep e1. subst e1.
  destruct (stopIfPlaying_frame X e) as (Hsc & _ & Hup & _).
  unfold Spec.parseStep in Hstep. unfold loadScore. cbv zeta in *.
  revert Hsc Hup. generalize (if playing e then togglePlaying X e else e).
  intros e0 Hsc Hup.
  destruct (decide (tolower (getFileExtension X file) = SUS_EXTENSION X));
    [discriminate|].
  destruct (decide (tolower (getFileExtension X file) = MMWS_EXTENSION X));
    [discriminate|].
  destruct (finishLoad_frame X (windowUntitled X) (resetNextID e0)) as (H1 & _ & H3 & _).
  destruct (finishLoad_more (windowUntitled X) (resetNextID e0))
    as (_ & _ & H4 & H5 & H6 & H7).
  rewrite H1, H3, H4, H5, H6, H7.
  change (score (resetNextID e0)) with (score e0).
  change (uptoDate (resetNextID e0)) with (uptoDate e0).
  rewrite Hsc, Hup. done.
Qed.

(** X13. Reading the metadata of the chart into the working data and writing
    it back gives the chart its title, artist, author, music file and music
    offset again, and leaves the notes alone. *)
Theorem metadata_read_write (e : ScoreEditor) :
  let sc' := score (writeScoreMetadata (readScoreMetadata X e)) in
  title (metadata sc') = title (metadata (score e)) ∧
  artist (metadata sc') = artist (metadata (score e)) ∧
  author (metadata sc') = author (metadata (score e)) ∧
  musicFile (metadata sc') = musicFile (metadata (score e)) ∧
  musicOffset (metadata sc') = musicOffset (metadata (score e)) ∧
  notes sc' = notes (score e) ∧ holdNotes sc' = holdNotes (score e) ∧
  tempoChanges sc' = tempoChanges (score e).
Proof. by repeat split. Qed.

End LoadSaveMore.

Lemma loadScore_failure_only_stops_witness :
  Spec.loadFails Sample.X0 "broken.sus" ∧
  loadScore Sample.X0 "broken.sus" Sample.saved
  = (if playing Sample.saved then togglePlaying Sample.X0 Sample.saved
     else Sample.saved).
Proof.
  assert (H : Spec.loadFails Sample.X0 "broken.sus")
    by (eexists _, _; vm_compute; reflexivity).
  split; [exact H|].
  exact (loadScore_failure_only_stops Sample.X0 "broken.sus" Sample.saved H).
Defined.

Lemma save_after_load_writes_back_witness :
  tolower (getFileExtension Sample.X0 "song.mmws") ≠ SUS_EXTENSION Sample.X0 ∧
  tolower (getFileExtension Sample.X0 "song.mmws") = MMWS_EXTENSION Sample.X0 ∧
  deserializeScore Sample.X0 "song.mmws" 0 = Loaded Sample.loadedScore 1 ∧
  nonEmpty "song.mmws" = true ∧
  let e1 := loadScore Sample.X0 "song.mmws" Sample.saved in
  let e2 := save Sample.X0 None e1 in
  score e1 = Sample.loadedScore ∧ filename (workingData e1) = "song.mmws" ∧
  ∃ sc', written e2 = ("song.mmws", sc') :: written e1 ∧
         notes sc' = notes Sample.loadedScore ∧
         holdNotes sc' = holdNotes Sample.loadedScore ∧
         tempoChanges sc' = tempoChanges Sample.loadedScore ∧
         timeSignatures sc' = timeSignatures Sample.loadedScore ∧
         title (metadata sc') = title (metadata Sample.loadedScore) ∧
         artist (metadata sc') = artist (metadata Sample.loadedScore) ∧
         author (metadata sc') = author (metadata Sample.loadedScore) ∧
         musicFile (metadata sc') = musicFile (metadata Sample.loadedScore) ∧
         musicOffset (metadata sc') = musicOffset (metadata Sample.loadedScore) ∧
         uptoDate e2 = true.
Proof.
  assert (H1 : tolower (getFileExtension Sample.X0 "song.mmws")
               ≠ SUS_EXTENSION Sample.X0)
    by (intros H; vm_compute in H; discriminate H).
  split; [exact H1|]. split; [reflexivity|]. split; [reflexivity|].
  split; [reflexivity|].
  exact (save_after_load_writes_back Sample.X0 "song.mmws" Sample.saved
           Sample.loadedScore 1 None H1 eq_refl eq_refl eq_refl).
Defined.

Lemma save_after_import_asks_witness :
  tolower (getFileExtension Sample.X0 "song.sus") = SUS_EXTENSION Sample.X0 ∧
  importSUS Sample.X0 "song.sus" 0 = Loaded Sample.loadedScore 1 ∧
  let e1 := loadScore Sample.X0 "song.sus" Sample.saved in
  filename (workingData e1) = "" ∧
  save Sample.X0 None e1 = e1 ∧
  ∀ chosen, ∃ sc', written (save Sample.X0 (Some chosen) e1)
                   = (chosen, sc') :: written e1 ∧
                   notes sc' = notes Sample.loadedScore ∧
                   filename (workingData (save Sample.X0 (Some chosen) e1)) = chosen.
Proof.
  split; [reflexivity|]. split; [reflexivity|].
  exact (save_after_import_asks Sample.X0 "song.sus" Sample.saved
           Sample.loadedScore 1 eq_refl eq_refl).
Defined.

Lemma loadScore_unknown_extension_witness :
  Spec.parseStep Sample.X0 "notes.txt" = None ∧
  let e1 := loadScore Sample.X0 "notes.txt" Sample.saved in
  score e1 = score Sample.saved ∧ uptoDate e1 = uptoDate Sample.saved ∧
  selection e1 = ∅ ∧ hasEdit e1 = false ∧
  wTitle (workingData e1) = title (metadata (score Sample.saved)) ∧
  windowTitle e1 = windowUntitled Sample.X0.
Proof.
  split; [reflexivity|].
  exact (loadScore_unknown_extension Sample.X0 "notes.txt" Sample.saved eq_refl).
Defined.

(** ** More on seeking *)

Section SeekMore.

Variable X : Externals.

(** X14. Seeking to the same time twice is the same as seeking once: the
    second seek finds the at-end flag as it has to be. *)
Theorem seekBGM_idempotent (time : Q) (a : Audio.AudioManager) :
  Audio.seekBGM X time (Audio.seekBGM X time a) = Audio.seekBGM X time a.
Proof.
  unfold Audio.seekBGM. destruct a as [mi off rate et len sf cur atEnd st stt snd ev].
  simpl. set (f := toFrame X _).
  destruct len as [len|]; simpl; [|done].
  destruct (decide (len < f)%N) as [Hlt|Hlt]; simpl.
  - by rewrite decide_True.
  - destruct atEnd; simpl;
      destruct (bool_decide (f < len)%N) eqn:Hb; simpl;
      rewrite ?decide_False by done; simpl; subst f; rewrite ?Hb; reflexivity.
Qed.

End SeekMore.

(** ** More on the scheduler *)

Section SchedulerMore.

Variable X : Externals.

(** X15. Within one frame an entry of the table is played at most once,
    however many notes of the chart share its tick and effect. *)
Theorem frame_plays_entry_at_most_once (e : ScoreEditor) (f : Frame) (k : string) :
  playing e = true → Spec.holdsComplete (score e) →
  ∃ e', updateNoteSE X (hostFrame f e) = Some e' ∧
        (Spec.firings k (audio e) ≤ Spec.firings k (audio e')
         ≤ Spec.firings k (audio e) + 1)%nat.
Proof.
  intros Hplay Hwf.
  unfold updateNoteSE, updateNoteSEIn. simpl. rewrite Hplay. simpl.
  set (e1 := withSongPos _ _).
  set (order := (map_to_list (notes (score e))).*2).
  assert (Hwf' : ∀ n, n ∈ order → noteType n = Hold →
                      is_Some (holdEndTick (score e1) (ID n))).
  { intros n' [[i' n''] [-> Hn']]%list_elem_of_fmap Hty.
    apply elem_of_map_to_list in Hn'. by apply (Hwf i'). }
  destruct (Spec.present X e1 k order) eqn:Hpres.
  - apply existsb_exists in Hpres as (n & Hin & Hk).
    apply bool_decide_eq_true_1 in Hk.
    destruct (noteSELoop_spec X e1 k (Spec.firesIn X e1 n)
                (getNoteSE X n (score e1)) order Hwf') with (m := (∅ : gmap string Z))
                (a := audio (hostFrame f e))
      as (m' & a' & Hloop & _ & _ & Hf).
    { intros n' _ Hk'. apply (firesIn_key X e1). by rewrite Hk, Hk'. }
    change (Spec.firings k (audio (hostFrame f e)))
      with (Spec.firings k (audio e)) in Hf.
    simpl in Hloop. rewrite Hloop. simpl. eexists. split; [reflexivity|].
    simpl. rewrite Hf. unfold Spec.bump. case_match; lia.
  - destruct (noteSELoop_spec X e1 k false "" order Hwf') with (m := (∅ : gmap string Z))
                (a := audio (hostFrame f e))
      as (m' & a' & Hloop & _ & _ & Hf).
    { intros n' Hin Hk'. exfalso.
      assert (Spec.present X e1 k order = true); [|congruence].
      apply existsb_exists. exists n'. split; [by apply list_elem_of_In|].
      by apply bool_decide_eq_true_2. }
    change (Spec.firings k (audio (hostFrame f e)))
      with (Spec.firings k (audio e)) in Hf.
    simpl in Hloop. rewrite Hloop. simpl. eexists. split; [reflexivity|].
    simpl. rewrite Hf. simpl. lia.
Qed.

Lemma crossings_none_after e n p fs :
  Time.ltb (Spec.fireInstant X e n) p = true →
  Spec.nondecreasing e p fs = true →
  Spec.crossings X e n p fs = 0%nat.
Proof.
  revert p. induction fs as [|f fs IH]; intros p Hlt Hmono; [done|].
  simpl in *. apply andb_prop in Hmono as [Hle Hmono].
  unfold Time.ltb in Hlt. apply negb_true_iff in Hlt.
  apply Qle_bool_iff in Hle.
  assert (Hge : Time.geb (Spec.fireInstant X e n) p = false).
  { unfold Time.geb. exact Hlt. }
  unfold Spec.crosses. rewrite Hge. simpl.
  apply IH; [|exact Hmono].
  unfold Time.ltb. apply negb_true_iff.
  destruct (Qle_bool (Spec.framePos e f) (Spec.fireInstant X e n)) eqn:Hc; [|done].
  apply Qle_bool_iff in Hc.
  assert (Qle_bool p (Spec.fireInstant X e n) = true); [|congruence].
  apply Qle_bool_iff. by eapply Qle_trans.
Qed.

Lemma crossings_at_most_one e n p fs :
  Spec.nondecreasing e p fs = true → (Spec.crossings X e n p fs ≤ 1)%nat.
Proof.
  revert p. induction fs as [|f fs IH]; intros p Hmono; simpl; [lia|].
  simpl in Hmono. apply andb_prop in Hmono as [Hle Hmono].
  destruct (Spec.crosses X e n p (Spec.framePos e f)) eqn:Hc.
  - unfold Spec.crosses in Hc. apply andb_prop in Hc as [_ Hlt].
    rewrite (crossings_none_after e n _ fs Hlt Hmono). lia.
  - specialize (IH _ Hmono). lia.
Qed.

(** X16. In a run whose positions never go back and none of whose frames
    passes the test for the start of playback, the effect of a note is played
    at most once: once if a window holds its fire instant, else never. *)
Theorem effect_at_most_once_in_forward_run (fs : list Frame) (e : ScoreEditor)
    (i : Z) (n : Note) :
  playing e = true →
  Spec.holdsComplete (score e) →
  notes (score e) !! i = Some n →
  getNoteSE X n (score e) ∈ Audio.sounds (audio e) →
  Spec.nondecreasing e (songPos e) fs = true →
  Spec.startFirings X e n (songPos e) fs = 0%nat →
  ∃ e', runFrames X fs e = Some e' ∧
        Spec.firings (Spec.keyOf X e n) (audio e')
        = (Spec.firings (Spec.keyOf X e n) (audio e)
           + Spec.crossings X e n (songPos e) fs)%nat ∧
        (Spec.crossings X e n (songPos e) fs ≤ 1)%nat.
Proof.
  intros Hplay Hwf Hn Hse Hmono Hs.
  destruct (runFrames_firings X fs e i n Hplay Hwf Hn Hse) as (e' & Hrun & _ & Hf).
  exists e'. split; [exact Hrun|]. split; [rewrite Hf, Hs; lia|].
  by apply crossings_at_most_one.
Qed.

End SchedulerMore.

Section Orphans.

Variable X : Externals.

Lemma noteSELoop_throws e l n :
  n ∈ l → (∀ st, noteSE X e st n = None) → ∀ st, noteSELoop X e l st = None.
Proof.
  intros Hin Hn. induction l as [|n' l IH]; intros st.
  - by apply elem_of_nil in Hin.
  - simpl. apply elem_of_cons in Hin as [<-|Hin].
    + by rewrite Hn.
    + destruct (noteSE X e st n'); simpl; [by apply IH | done].
Qed.

(** X17. A hold start without its hold or without its end note makes the
    scheduler fail (the [std::out_of_range] of [at]) in the first frame whose
    window holds its fire instant, and in any frame taken for the first of a
    run, whatever else the chart holds. *)
Theorem orphan_hold_start_throws (e : ScoreEditor) (f : Frame) (i : Z) (n : Note) :
  playing e = true →
  notes (score e) !! i = Some n →
  noteType n = Hold →
  holdEndTick (score e) (ID n) = None →
  Spec.crosses X e n (songPos e) (Spec.framePos e f)
  || Time.eqb (frameTime f) (playStartTime e) = true →
  updateNoteSE X (hostFrame f e) = None.
Proof.
  intros Hplay Hn Hty Hend Hc.
  unfold updateNoteSE, updateNoteSEIn. simpl. rewrite Hplay. simpl.
  set (e1 := withSongPos _ _).
  set (order := (map_to_list (notes (score e))).*2).
  assert (Hin : n ∈ order).
  { subst order. apply list_elem_of_fmap. exists (i, n). split; [done|].
    by apply elem_of_map_to_list. }
  rewrite (noteSELoop_throws e1 order n Hin); [done|].
  intros st. unfold noteSE. cbv zeta.
  change (score e1) with (score e). change (time e1) with (frameTime f).
  change (playStartTime e1) with (playStartTime e).
  change (songPosLastFrame e1) with (songPos e).
  assert (Hpos : songPos e1 = Spec.framePos e f).
  { unfold Spec.framePos. subst e1. simpl. by rewrite Hplay. }
  rewrite Hpos. unfold Spec.crosses, Spec.fireInstant, Spec.noteTime in Hc.
  rewrite Hend. rewrite !decide_True by done.
  destruct (Time.geb _ _ && Time.ltb _ _); simpl in *; [done|].
  rewrite Hc. done.
Qed.

End Orphans.

Lemma frame_plays_entry_at_most_once_witness :
  playing Sample.started = true ∧ Spec.holdsComplete (score Sample.started) ∧
  ∃ e', updateNoteSE Sample.X0 (hostFrame Sample.frame1 Sample.started) = Some e' ∧
        (Spec.firings "9592-perfect" (audio Sample.started)
         ≤ Spec.firings "9592-perfect" (audio e')
         ≤ Spec.firings "9592-perfect" (audio Sample.started) + 1)%nat.
Proof.
  split; [reflexivity|]. split; [exact tapScore_holdsComplete|].
  exact (frame_plays_entry_at_most_once Sample.X0 Sample.started Sample.frame1
           "9592-perfect" eq_refl tapScore_holdsComplete).
Defined.

Lemma effect_at_most_once_in_forward_run_witness :
  playing Sample.startedEarly = true ∧
  Spec.nondecreasing Sample.startedEarly (songPos Sample.startedEarly) Sample.frames
  = true ∧
  Spec.startFirings Sample.X0 Sample.startedEarly (Sample.tapNote 7 9592)
    (songPos Sample.startedEarly) Sample.frames = 0%nat ∧
  ∃ e', runFrames Sample.X0 Sample.frames Sample.startedEarly = Some e' ∧
        Spec.firings (Spec.keyOf Sample.X0 Sample.startedEarly (Sample.tapNote 7 9592))
          (audio e')
        = (Spec.firings
             (Spec.keyOf Sample.X0 Sample.startedEarly (Sample.tapNote 7 9592))
             (audio Sample.startedEarly)
           + Spec.crossings Sample.X0 Sample.startedEarly (Sample.tapNote 7 9592)
               (songPos Sample.startedEarly) Sample.frames)%nat ∧
        (Spec.crossings Sample.X0 Sample.startedEarly (Sample.tapNote 7 9592)
           (songPos Sample.startedEarly) Sample.frames ≤ 1)%nat.
Proof.
  assert (H1 : Spec.nondecreasing Sample.startedEarly (songPos Sample.startedEarly)
                 Sample.frames = true) by (vm_compute; reflexivity).
  assert (H2 : Spec.startFirings Sample.X0 Sample.startedEarly (Sample.tapNote 7 9592)
                 (songPos Sample.startedEarly) Sample.frames = 0%nat)
    by (vm_compute; reflexivity).
  assert (H3 : getNoteSE Sample.X0 (Sample.tapNote 7 9592) (score Sample.startedEarly)
               ∈ Audio.sounds (audio Sample.startedEarly))
    by (apply (bool_decide_unpack _); vm_compute; exact I).
  split; [reflexivity|]. split; [exact H1|]. split; [exact H2|].
  exact (effect_at_most_once_in_forward_run Sample.X0 Sample.frames
           Sample.startedEarly 7 (Sample.tapNote 7 9592)
           eq_refl tapScore_holdsComplete eq_refl H3 H1 H2).
Defined.

Lemma orphan_hold_start_throws_witness :
  playing Sample.orphanStarted = true ∧
  notes (score Sample.orphanStarted) !! 9
  = Some (mkNote Hold 9 9592 0 3 false FlickNone) ∧
  holdEndTick (score Sample.orphanStarted) 9 = None ∧
  Time.eqb (frameTime Sample.frame1) (playStartTime Sample.orphanStarted) = true ∧
  updateNoteSE Sample.X0 (hostFrame Sample.frame1 Sample.orphanStarted) = None.
Proof.
  assert (H : Spec.crosses Sample.X0 Sample.orphanStarted
                (mkNote Hold 9 9592 0 3 false FlickNone)
                (songPos Sample.orphanStarted)
                (Spec.framePos Sample.orphanStarted Sample.frame1)
              || Time.eqb (frameTime Sample.frame1)
                   (playStartTime Sample.orphanStarted) = true)
    by (vm_compute; reflexivity).
  split; [reflexivity|]. split; [reflexivity|]. split; [reflexivity|].
  split; [vm_compute; reflexivity|].
  exact (orphan_hold_start_throws Sample.X0 Sample.orphanStarted Sample.frame1 9
           (mkNote Hold 9 9592 0 3 false FlickNone) eq_refl eq_refl eq_refl eq_refl H).
Defined.

(** ** More on the repair of holds *)

Ltac solve_key_decide :=
  repeat match goal with
  | |- context [decide (?x = ?y)] =>
      first [ rewrite (decide_True (P := x = y)) by congruence
            | rewrite (decide_False (P := x = y)) by congruence ]
  end.

Section HoldsMore.

Lemma swapTickLane_lookup a b (ns : gmap Z Note) na nb c :
  ns !! a = Some na → ns !! b = Some nb → a ≠ b →
  swapTickLane a b ns !! c =
    if decide (c = b) then Some (setTickLane (tick na) (lane na) nb)
    else if decide (c = a) then Some (setTickLane (tick nb) (lane nb) na)
    else ns !! c.
Proof.
  intros Ha Hb Hab. unfold swapTickLane. rewrite Ha, Hb.
  repeat case_decide; subst.
  - by rewrite lookup_insert_eq.
  - rewrite lookup_insert_ne by done. by rewrite lookup_insert_eq.
  - by rewrite !lookup_insert_ne by done.
Qed.

(** X18. For a hold without steps or with one step, the repair on release
    leaves the hold in order: start, step, end by ascending tick. *)
Theorem normalizeHold_orders_short_hold (id : Z) (sc : Score) (hold : HoldNote)
    (s en : Note) :
  holdNotes sc !! id = Some hold →
  notes sc !! id = Some s →
  notes sc !! end_ hold = Some en →
  id ≠ end_ hold →
  (steps hold = [] ∨
   ∃ st m, steps hold = [st] ∧ notes sc !! stepID st = Some m ∧
           stepID st ≠ id ∧ stepID st ≠ end_ hold) →
  ∃ sc', normalizeHold id sc = Some sc' ∧ holdOrdered sc' id = true.
Proof.
  intros Hh Hs He Hne Hsteps. unfold normalizeHold.
  rewrite Hh. simpl. rewrite Hs. simpl. rewrite He. simpl.
  set (ns1 := if decide (tick s > tick en)
              then swapTickLane id (end_ hold) (notes sc) else notes sc).
  assert (H1 : ∃ s1 e1, ns1 !! id = Some s1 ∧ ns1 !! end_ hold = Some e1 ∧
                        tick s1 ≤ tick e1 ∧
                        ∀ c, c ≠ id → c ≠ end_ hold → ns1 !! c = notes sc !! c).
  { subst ns1. case_decide.
    - eexists _, _. rewrite !(swapTickLane_lookup _ _ _ s en) by done.
      solve_key_decide.
      split; [done|]. split; [done|]. split; [simpl; lia|].
      intros c ? ?. rewrite (swapTickLane_lookup _ _ _ s en) by done.
      by solve_key_decide.
    - exists s, en. split; [done|]. split; [done|]. split; [lia|]. done. }
  destruct H1 as (s1 & e1 & Hs1 & He1 & Hle1 & Hother1). clearbody ns1.
  destruct Hsteps as [Hnil | (st & m & Hst & Hm & Hn1 & Hn2)].
  - rewrite Hnil. simpl. eexists. split; [reflexivity|].
    unfold holdOrdered, holdTicks. simpl. rewrite lookup_insert_eq. simpl.
    rewrite Hs1. simpl. rewrite He1. simpl.
    rewrite bool_decide_eq_true_2 by done. done.
  - rewrite Hst.
    assert (Hm1 : ns1 !! stepID st = Some m) by (rewrite Hother1; done).
    unfold sortHoldSteps. simpl. unfold stepTick at 1. rewrite Hm1. simpl.
    rewrite Hm1. simpl. rewrite Hs1. simpl.
    set (ns2 := if decide (tick s1 > tick m)
                then swapTickLane id (stepID st) ns1 else ns1).
    assert (H2 : ∃ s2 m2, ns2 !! id = Some s2 ∧ ns2 !! stepID st = Some m2 ∧
                          ns2 !! end_ hold = Some e1 ∧
                          tick s2 ≤ tick m2 ∧ tick s2 ≤ tick e1 ∧
                          (tick m2 ≤ tick e1 ∨ tick m2 = tick m)).
    { subst ns2. case_decide.
      - eexists _, _. rewrite !(swapTickLane_lookup _ _ _ s1 m) by done.
        solve_key_decide. rewrite He1.
        split; [done|]. split; [done|]. split; [done|]. simpl. lia.
      - exists s1, m. split; [done|]. split; [done|]. split; [done|]. lia. }
    destruct H2 as (s2 & m2 & Hs2 & Hm2 & He2 & Hle2 & Hle2' & Hor). clearbody ns2.
    rewrite Hm2. simpl. rewrite He2. simpl.
    eexists. split; [reflexivity|].
    unfold holdOrdered, holdTicks. simpl. rewrite lookup_insert_eq. simpl.
    case_decide.
    + unfold stepTick.
      rewrite !(swapTickLane_lookup _ _ _ e1 m2) by done.
      solve_key_decide. rewrite Hs2. simpl.
      rewrite !bool_decide_eq_true_2 by lia. done.
    + rewrite Hs2. simpl. rewrite He2. simpl. unfold stepTick. simpl. rewrite Hm2. simpl.
      rewrite !bool_decide_eq_true_2 by lia. done.
Qed.







End HoldsMore.

Lemma normalizeHold_orders_short_hold_witness :
  holdNotes Sample.oneStepScore !! 1
  = Some (mkHoldNote (mkHoldStep 1 Visible EaseNone) [mkHoldStep 3 Visible EaseNone] 2) ∧
  ∃ sc', normalizeHold 1 Sample.oneStepScore = Some sc' ∧ holdOrdered sc' 1 = true.
Proof.
  split; [reflexivity|].
  apply (normalizeHold_orders_short_hold 1 Sample.oneStepScore
           (mkHoldNote (mkHoldStep 1 Visible EaseNone) [mkHoldStep 3 Visible EaseNone] 2)
           (mkNote Hold 1 30 0 3 false FlickNone)
           (mkNote HoldEnd 2 20 6 3 false FlickNone)).
  - reflexivity.
  - reflexivity.
  - reflexivity.
  - simpl. lia.
  - right. exists (mkHoldStep 3 Visible EaseNone), (mkNote HoldMid 3 5 2 3 false FlickNone).
    split; [reflexivity|]. split; [reflexivity|]. simpl. lia.
Defined.


(** ** Controls, selection and tools *)

Section ControlsMore.

Variable X : Externals.

(** X20. [noteControl] touches the chart, the history and the flags for
    edits only when the button is let go after an edit while a hold is
    selected. *)
Theorem noteControl_quiet (item : ItemState) (e : ScoreEditor) :
  active item = true ∨ deactivated item = false ∨ hasEdit e = false
  ∨ getHolds (selection e) (score e) = ∅ →
  ∃ e', noteControl X item e = Some (active item, e') ∧
        score e' = score e ∧ history e' = history e ∧
        uptoDate e' = uptoDate e ∧ hasEdit e' = hasEdit e.
Proof.
  intros H. unfold noteControl.
  destruct (active item) eqn:Ha.
  { eexists. split; [reflexivity|]. by destruct (activated item). }
  destruct (deactivated item) eqn:Hd.
  2:{ eexists. split; [reflexivity|]. by destruct (activated item). }
  destruct H as [H|[H|[H|H]]]; try discriminate.
  - assert (hasEdit (withIsHoldingNote false
              (if activated item then withPrevUpdateScore (score e) e else e)) = false)
      as -> by (by destruct (activated item)).
    eexists. split; [reflexivity|]. by destruct (activated item).
  - destruct (hasEdit _) eqn:He.
    + assert (getHolds
                (selection (withIsHoldingNote false
                   (if activated item then withPrevUpdateScore (score e) e else e)))
                (score (withIsHoldingNote false
                   (if activated item then withPrevUpdateScore (score e) e else e)))
              = ∅) as ->.
      { rewrite <- H. by destruct (activated item). }
      rewrite elements_empty. simpl. eexists. split; [reflexivity|].
      by destruct (activated item).
    + eexists. split; [reflexivity|]. by destruct (activated item).
Qed.

(** X22. [restart] leaves the editor playing from the beginning whether or
    not it was playing, with the chart as it was. *)
Theorem restart_plays_from_start (e : ScoreEditor) :
  let e' := restart X e in
  playing e' = true ∧ time e' = 0%Q ∧ playStartTime e' = 0%Q ∧
  currentTick e' = 0 ∧ score e' = score e ∧
  Audio.bgmSeekFrame (audio e')
  = toFrame X ((0 - Audio.bgmOffset (audio e)) * inject_Z (Audio.sampleRate (audio e)))%Q.
Proof.
  unfold restart, stop, togglePlaying. simpl.
  repeat split.
  unfold Audio.playBGM, Audio.seekBGM. simpl.
  repeat case_match; reflexivity.
Qed.

End ControlsMore.

Section DragSelection.

Variable C : Canvas.

Lemma dragSelect_spec alt ds mp l sel :
  dragSelect C alt ds mp l sel =
    if alt then sel ∖ Spec.dragHits C ds mp l else Spec.dragHits C ds mp l ∪ sel.
Proof.
  revert sel. induction l as [|n l IH]; intros sel.
  - unfold Spec.dragHits. simpl. destruct alt; set_solver.
  - simpl. rewrite IH. unfold Spec.dragHits. rewrite filter_cons.
    destruct (inDragRectangle C ds mp n) eqn:Hn.
    + rewrite decide_True by done. destruct alt; set_solver.
    + rewrite decide_False by (by intros ?). destruct alt; set_solver.
Qed.

(** X21. Dragging a rectangle with Alt held takes the notes inside it out of
    the selection, also when Ctrl is held too; with Ctrl alone it adds them
    to the selection; with neither it selects exactly them. *)
Theorem calcDragSelection_policy (alt ctrl : bool) (ds mp : Q * Q)
    (e : ScoreEditor) :
  let hits := Spec.dragHits C ds mp ((map_to_list (notes (score e))).*2) in
  selection (calcDragSelection C alt ctrl ds mp e) =
    if alt then selection e ∖ hits
    else if ctrl then hits ∪ selection e
    else hits.
Proof.
  unfold calcDragSelection. simpl.
  destruct alt, ctrl; simpl; rewrite dragSelect_spec; simpl; set_solver.
Qed.

End DragSelection.

Section Modes.

(** X23. Choosing the hold-step tool while it is already chosen moves on to
    the next kind of step, and three such choices in a row come back to the
    kind they started from; choosing it from another tool keeps the kind of
    step, and no other choice of tool changes it. *)
Theorem changeMode_step_type_cycle (mode : TimelineMode) (st : ModeState) :
  (defaultStepType (changeMode mode st) ≠ defaultStepType st ↔
   mode = InsertLongMid ∧ currentMode st = InsertLongMid) ∧
  defaultStepType
    (changeMode InsertLongMid (changeMode InsertLongMid (changeMode InsertLongMid
       (changeMode InsertLongMid st))))
  = defaultStepType (changeMode InsertLongMid st) ∧
  currentMode (changeMode mode st) = mode.
Proof.
  destruct st as [cm dt d].
  split; [|split; [|done]].
  - destruct mode, cm, dt; simpl; split;
      (done || (intros [? ?]; done) || (intros ?; exfalso; done)).
  - destruct cm, dt; reflexivity.
Qed.

End Modes.

Lemma noteControl_quiet_witness :
  active Sample.held = true ∧
  ∃ e', noteControl Sample.X0 Sample.held Sample.dragged
        = Some (active Sample.held, e') ∧
        score e' = score Sample.dragged ∧ history e' = history Sample.dragged ∧
        uptoDate e' = uptoDate Sample.dragged ∧ hasEdit e' = hasEdit Sample.dragged.
Proof.
  split; [reflexivity|].
  exact (noteControl_quiet Sample.X0 Sample.held Sample.dragged (or_introl eq_refl)).
Defined.
